(** * llmapibenchmark: the concurrent measurement engine

    A shallow embedding of [internal/utils/speed.go] (the request fanout and
    the statistics reducer of [SpeedMeasurement.Run]) and of the part of
    [cmd] that drives it, with the properties of the specification stated
    and proved over it.

    float64 values are IEEE 754 binary64 numbers, modelled by the Standard
    Library's [spec_float] at precision 53 and maximal exponent 1024; [int]
    is the 64-bit two's complement integer, [atomic.Int32] the 32-bit one,
    both as [Z] with the wrap-around written out; the three [sync.Map]s are
    finite maps keyed by the request index. *)

From Stdlib Require Import ZArith Bool SpecFloat Ascii.
From stdpp Require Import base list gmap strings sorting.

Local Open Scope Z_scope.

(** ** Machine integers *)

Module Int.

(** Two's complement wrap-around of a [w]-bit signed integer. *)
Definition wrap (w : Z) (z : Z) : Z :=
  (z + 2 ^ (w - 1)) mod 2 ^ w - 2 ^ (w - 1).

Definition wrap32 : Z -> Z := wrap 32.
Definition wrap64 : Z -> Z := wrap 64.

Definition MaxInt32 : Z := 2 ^ 31 - 1.
Definition MinInt64 : Z := - 2 ^ 63.
Definition MaxInt64 : Z := 2 ^ 63 - 1.

End Int.

(** ** float64 *)

Module F64.

Definition prec : Z := 53.
Definition emax : Z := 1024.

Definition float64 : Type := spec_float.

Definition zero : float64 := S754_zero false.
Definition nan : float64 := S754_nan.

Definition add : float64 -> float64 -> float64 := SFadd prec emax.
Definition sub : float64 -> float64 -> float64 := SFsub prec emax.
Definition mul : float64 -> float64 -> float64 := SFmul prec emax.
Definition div : float64 -> float64 -> float64 := SFdiv prec emax.

(** [x < y], [x > y], [x <= y] of Go: false as soon as an operand is NaN. *)
Definition ltb : float64 -> float64 -> bool := SFltb.
Definition gtb (x y : float64) : bool := SFltb y x.
Definition leb : float64 -> float64 -> bool := SFleb.

Definition is_nan (x : float64) : bool :=
  match x with S754_nan => true | _ => false end.

Definition is_finite (x : float64) : bool :=
  match x with S754_zero _ | S754_finite _ _ _ => true | _ => false end.

Definition is_zero (x : float64) : bool :=
  match x with S754_zero _ => true | _ => false end.

(** The sign bit of a number ([math.Signbit]); false for NaN. *)
Definition signbit (x : float64) : bool :=
  match x with
  | S754_zero s | S754_infinity s | S754_finite s _ _ => s
  | S754_nan => false
  end.

(** [float64(n)] for an integer [n]: the nearest binary64 number, ties to
    even. *)
Definition of_int (n : Z) : float64 := binary_normalize prec emax n 0 false.

(** A decimal constant [n/d] of the source text ([0.95] is [dec 95 100]):
    the binary64 number nearest to the exact quotient, which is what the
    correctly rounded division of the two exactly representable integers
    gives. *)
Definition dec (n d : Z) : float64 := div (of_int n) (of_int d).

(** A number with sign [s] and magnitude the integer [q] (at most 2^53, so
    exact); the sign is kept on a zero. *)
Definition signed_int (s : bool) (q : Z) : float64 :=
  match q with
  | Z0 => S754_zero s
  | Zpos p => binary_round prec emax s p 0
  | Zneg _ => S754_nan
  end.

(** [math.Round]: the nearest integer, halves away from zero;
    [Round(±0) = ±0], [Round(±Inf) = ±Inf], [Round(NaN) = NaN]. *)
Definition Round (x : float64) : float64 :=
  match x with
  | S754_finite s m e =>
      if 0 <=? e then x
      else
        let k := - e in
        let q := Z.shiftr (Zpos m) k in
        let r := Z.land (Zpos m) (Z.ones k) in
        signed_int s (if 2 ^ (k - 1) <=? r then q + 1 else q)
  | _ => x
  end.

(** [math.Ceil]: the least integer not below [x]; [Ceil(±0) = ±0],
    [Ceil(±Inf) = ±Inf], [Ceil(NaN) = NaN]; a result that is zero for a
    negative [x] is the negative zero. *)
Definition Ceil (x : float64) : float64 :=
  match x with
  | S754_finite s m e =>
      if 0 <=? e then x
      else
        let k := - e in
        let q := Z.shiftr (Zpos m) k in
        let r := Z.land (Zpos m) (Z.ones k) in
        signed_int s (if s then q else if r =? 0 then q else q + 1)
  | _ => x
  end.

(** [math.Sqrt], correctly rounded. *)
Definition Sqrt : float64 -> float64 := SFsqrt prec emax.

(** [math.Pow(x, 2)]: the square, as the correctly rounded product. (The
    library squares the mantissa and scales the result; the two agree unless
    the square falls in the subnormal range, below 2^-1022.) *)
Definition Pow2 (x : float64) : float64 := mul x x.

(** [int(x)]: the fraction is discarded. For a NaN, an infinity or a
    number outside the range of [int] the language leaves the result to the
    implementation; [invalid] gives it. *)
Definition to_int (invalid : float64 -> Z) (x : float64) : Z :=
  match x with
  | S754_zero _ => 0
  | S754_finite s m e =>
      let q := if 0 <=? e then Z.shiftl (Zpos m) e else Z.shiftr (Zpos m) (- e) in
      let z := if s then - q else q in
      if (Int.MinInt64 <=? z) && (z <=? Int.MaxInt64) then z
      else Int.wrap64 (invalid x)
  | _ => Int.wrap64 (invalid x)
  end.

(** What amd64 yields for the conversions the language leaves open. *)
Definition invalid_amd64 (_ : float64) : Z := Int.MinInt64.

End F64.

Import F64.

(** ** The standard library pieces the reducer calls *)

Module sort.

(** The order of [sort.Float64Slice]: a NaN comes before every number. *)
Definition less (x y : float64) : bool :=
  ltb x y || (is_nan x && negb (is_nan y)).

Fixpoint insert (x : float64) (l : list float64) : list float64 :=
  match l with
  | [] => [x]
  | h :: t => if less x h then x :: h :: t else h :: insert x t
  end.

(** [sort.Float64s]: the values in increasing order, NaNs first. The library
    fixes the result up to the order of values that compare equal (the two
    zeros); the insertion sort below is the one it runs on short slices. *)
Definition Float64s (l : list float64) : list float64 :=
  fold_left (fun sorted x => insert x sorted) l [].

End sort.

Module time.

Definition Second : Z := 1000000000.

(** [Duration.Seconds]: a duration is a count of nanoseconds in an [int64];
    [/] and [%] truncate towards zero. *)
Definition Seconds (d : Z) : float64 :=
  let sec := Z.quot d Second in
  let nsec := Z.rem d Second in
  add (of_int sec) (div (of_int nsec) (of_int 1000000000)).

End time.

(** ** speed.go: the helpers *)

Definition roundToTwoDecimals (f : float64) : float64 :=
  div (Round (mul f (of_int 100))) (of_int 100).

Section Percentile.

(** What [int(x)] gives where the language leaves it to the implementation. *)
Variable invalid : float64 -> Z.

(** The index [calculatePercentile] reads the sorted slice at. *)
Definition percentileIndex (len : Z) (percentile : float64) : Z :=
  let index := Int.wrap64 (to_int invalid (Ceil (mul (of_int len) percentile)) - 1) in
  let index := if index <? 0 then 0 else index in
  let index := if len <=? index then len - 1 else index in
  index.

Definition calculatePercentile (values : list float64) (percentile : float64) : float64 :=
  match values with
  | [] => zero
  | _ =>
      let sorted := sort.Float64s values in
      let index := percentileIndex (Z.of_nat (length sorted)) percentile in
      nth (Z.to_nat index) sorted zero
  end.

End Percentile.

Definition calculateStdDev (values : list float64) (mean : float64) : float64 :=
  match values with
  | [] => zero
  | _ =>
      let sum := fold_left (fun sum v => add sum (Pow2 (sub v mean))) values zero in
      Sqrt (div sum (of_int (Z.of_nat (length values))))
  end.

(** ** speed.go: the data *)

Inductive error : Type := Err (msg : string).

Module SpeedMeasurement.
Record t : Type := mk {
  BaseUrl : string;
  ApiVersion : string;
  ApiKey : string;
  ModelName : string;
  Prompt : string;
  UseRandomInput : bool;
  NumWords : Z;
  MaxTokens : Z;
  Latency : float64;
  Concurrency : Z
}.
End SpeedMeasurement.

Module SpeedResult.
Record t : Type := mk {
  Concurrency : Z;
  GenerationSpeed : float64;
  PromptThroughput : float64;
  TotalThroughput : float64;
  MaxTtft : float64;
  MinTtft : float64;
  AvgTtft : float64;
  MedianTtft : float64;
  P95Ttft : float64;
  P99Ttft : float64;
  StdDevTtft : float64;
  SuccessRate : float64;
  SuccessfulRequests : Z;
  FailedRequests : Z;
  TotalPromptTokens : Z;
  TotalCompletionTokens : Z;
  AvgPromptTokens : float64;
  AvgCompletionTokens : float64;
  Duration : float64
}.
End SpeedResult.

(** ** The world a run happens in *)

(** What one call of the chat-completion client returns:
    [(ttft, completionTokens, inputTokens, err)]. *)
Record Reply : Type := mkReply {
  ttft : float64;
  completionTokens : Z;
  inputTokens : Z;
  err : option error
}.

(** The client of package [api], outside the engine. The last argument is
    the index of the calling goroutine: each call has an answer of its own. *)
Record Client : Type := mkClient {
  AskOpenAi : string -> string -> Z -> Z -> Reply;
  AskOpenAiRandomInput : string -> Z -> Z -> Z -> Reply
}.

(** What the runtime decides: the order in which the goroutines finish, and
    the order in which [Range] visits the keys of each [sync.Map]. *)
Record Schedule : Type := mkSchedule {
  completion : list Z;
  rangeResponseTokens : list Z;
  rangePromptTokens : list Z;
  rangeTtfts : list Z
}.

(** The variables the goroutines share. *)
Record Shared : Type := mkShared {
  responseTokens : gmap Z Z;
  promptTokens : gmap Z Z;
  ttfts : gmap Z float64;
  successfulRequests : Z;
  failedRequests : Z
}.

Definition Shared0 : Shared := mkShared ∅ ∅ ∅ 0 0.

(** [sync.Map.Range] visiting the keys in the order [order]. *)
Definition Range {A : Type} (order : list Z) (m : gmap Z A) : list A :=
  omap (fun k => m !! k) order.

(** ** speed.go: Run *)

(** The call a goroutine makes. *)
Definition ask (setup : SpeedMeasurement.t) (client : Client) (index : Z) : Reply :=
  if SpeedMeasurement.UseRandomInput setup
  then AskOpenAiRandomInput client (SpeedMeasurement.ModelName setup)
         (SpeedMeasurement.NumWords setup) (SpeedMeasurement.MaxTokens setup) index
  else AskOpenAi client (SpeedMeasurement.ModelName setup)
         (SpeedMeasurement.Prompt setup) (SpeedMeasurement.MaxTokens setup) index.

(** The body of the goroutine started for [index]. *)
Definition worker (setup : SpeedMeasurement.t) (client : Client)
    (s : Shared) (index : Z) : Shared :=
  let r := ask setup client index in
  match err r with
  | Some _ =>
      mkShared (responseTokens s) (promptTokens s) (ttfts s)
        (successfulRequests s) (Int.wrap32 (failedRequests s + 1))
  | None =>
      mkShared (<[index := completionTokens r]> (responseTokens s))
        (<[index := inputTokens r]> (promptTokens s))
        (<[index := ttft r]> (ttfts s))
        (Int.wrap32 (successfulRequests s + 1)) (failedRequests s)
  end.

(** The goroutines started by the loop are those of the indexes
    [0 .. Concurrency-1]. *)
Definition launched (setup : SpeedMeasurement.t) : list Z :=
  seqZ 0 (SpeedMeasurement.Concurrency setup).

(** The shared variables once [wg.Wait] returns, the goroutines having
    finished in the order [order]. A goroutine writes the maps at its own
    index only and the counters by atomic increments, so that a finer
    interleaving of the writes gives the same state. *)
Definition fanout (setup : SpeedMeasurement.t) (client : Client)
    (order : list Z) : Shared :=
  fold_left (worker setup client) order Shared0.

(** The loop over the TTFT values: the sum, the maximum and the minimum,
    the last two starting from the first value. *)
Definition ttftLoop (ttftValues : list float64) (first : float64)
    : float64 * float64 * float64 :=
  fold_left
    (fun '(sumTtft, maxTtft, minTtft) ttft =>
       (add sumTtft ttft,
        if gtb ttft maxTtft then ttft else maxTtft,
        if ltb ttft minTtft then ttft else minTtft))
    ttftValues (zero, first, first).

(** The summing [Range] callbacks: [total += value.(int)]. *)
Definition sumInts (values : list Z) : Z :=
  fold_left (fun total value => Int.wrap64 (total + value)) values 0.

(** The TTFT fields as they stand after the block guarded by
    [len(ttftValues) > 0]. *)
Record TtftStats : Type := mkTtftStats {
  sMaxTtft : float64;
  sMinTtft : float64;
  sAvgTtft : float64;
  sMedianTtft : float64;
  sP95Ttft : float64;
  sP99Ttft : float64;
  sStdDevTtft : float64
}.

Section Run.

(** What [int(x)] gives where the language leaves it to the implementation. *)
Variable invalid : float64 -> Z.

Definition ttftStats (ttftValues : list float64) : TtftStats :=
  match ttftValues with
  | [] => mkTtftStats zero zero zero zero zero zero zero
  | first :: _ =>
      let '(sumTtft, MaxTtft, MinTtft) := ttftLoop ttftValues first in
      let AvgTtft :=
        roundToTwoDecimals (div sumTtft (of_int (Z.of_nat (length ttftValues)))) in
      mkTtftStats MaxTtft MinTtft AvgTtft
        (roundToTwoDecimals (calculatePercentile invalid ttftValues (dec 5 10)))
        (roundToTwoDecimals (calculatePercentile invalid ttftValues (dec 95 100)))
        (roundToTwoDecimals (calculatePercentile invalid ttftValues (dec 99 100)))
        (roundToTwoDecimals (calculateStdDev ttftValues AvgTtft))
  end.

(** The statistics of [Run], from [measurement := SpeedResult{}] to the
    [return]: what the function computes from the counters, the token
    totals, the collected TTFT values and the measured duration. *)
Definition reduce (setup : SpeedMeasurement.t)
    (SuccessfulRequests FailedRequests : Z)
    (totalPromptTokens totalResponseTokens : Z)
    (ttftValues : list float64) (duration : Z) : SpeedResult.t :=
  let totalRequests := SpeedMeasurement.Concurrency setup in
  let SuccessRate :=
    if 0 <? totalRequests
    then div (of_int SuccessfulRequests) (of_int totalRequests)
    else zero in
  let stats := ttftStats ttftValues in
  let MaxTtft := roundToTwoDecimals (sMaxTtft stats) in
  let MinTtft := roundToTwoDecimals (sMinTtft stats) in
  let Duration := roundToTwoDecimals (time.Seconds duration) in
  let AvgPromptTokens :=
    if 0 <? SuccessfulRequests
    then roundToTwoDecimals (div (of_int totalPromptTokens) (of_int SuccessfulRequests))
    else zero in
  let AvgCompletionTokens :=
    if 0 <? SuccessfulRequests
    then roundToTwoDecimals (div (of_int totalResponseTokens) (of_int SuccessfulRequests))
    else zero in
  let latency := div (SpeedMeasurement.Latency setup) (of_int 1000) in
  let GenerationSpeed :=
    roundToTwoDecimals
      (div (of_int totalResponseTokens) (sub (time.Seconds duration) latency)) in
  let PromptThroughput :=
    roundToTwoDecimals (div (of_int totalPromptTokens) (sub MaxTtft latency)) in
  let TotalThroughput :=
    roundToTwoDecimals
      (div (of_int (Int.wrap64 (totalPromptTokens + totalResponseTokens)))
         (sub (time.Seconds duration) latency)) in
  SpeedResult.mk (SpeedMeasurement.Concurrency setup)
    GenerationSpeed PromptThroughput TotalThroughput
    MaxTtft MinTtft (sAvgTtft stats) (sMedianTtft stats)
    (sP95Ttft stats) (sP99Ttft stats) (sStdDevTtft stats)
    SuccessRate SuccessfulRequests FailedRequests
    totalPromptTokens totalResponseTokens
    AvgPromptTokens AvgCompletionTokens Duration.

(** [Run]: the fanout, joined by [wg.Wait]; the measured [duration]; the
    three [Range]s; the statistics. The error returned is always nil. *)
Definition Run (setup : SpeedMeasurement.t) (client : Client)
    (sched : Schedule) (duration : Z) : SpeedResult.t * option error :=
  let shared := fanout setup client (completion sched) in
  let totalResponseTokens :=
    sumInts (Range (rangeResponseTokens sched) (responseTokens shared)) in
  let totalPromptTokens :=
    sumInts (Range (rangePromptTokens sched) (promptTokens shared)) in
  let ttftValues := Range (rangeTtfts sched) (ttfts shared) in
  (reduce setup (successfulRequests shared) (failedRequests shared)
     totalPromptTokens totalResponseTokens ttftValues duration,
   None).

End Run.

(** ** The runs the theorems quantify over *)

(** Whether the request of goroutine [index] comes back without error. *)
Definition succeeded (setup : SpeedMeasurement.t) (client : Client) (index : Z) : bool :=
  match err (ask setup client index) with
  | None => true
  | Some _ => false
  end.

Definition successes (setup : SpeedMeasurement.t) (client : Client) : list Z :=
  filter (fun i => succeeded setup client i) (launched setup).

Definition failures (setup : SpeedMeasurement.t) (client : Client) : list Z :=
  filter (fun i => ¬ succeeded setup client i) (launched setup).

(** A schedule the runtime can produce: every launched goroutine finishes
    exactly once before [wg.Wait] returns, and each [Range] visits every
    stored key exactly once. *)
Record valid_schedule (setup : SpeedMeasurement.t) (client : Client)
    (sched : Schedule) : Prop := {
  completion_all : completion sched ≡ₚ launched setup;
  rangeResponseTokens_all : rangeResponseTokens sched ≡ₚ successes setup client;
  rangePromptTokens_all : rangePromptTokens sched ≡ₚ successes setup client;
  rangeTtfts_all : rangeTtfts sched ≡ₚ successes setup client
}.

(** The schedule in which everything happens in the order of the indexes. *)
Definition inOrder (setup : SpeedMeasurement.t) (client : Client) : Schedule :=
  mkSchedule (launched setup) (successes setup client)
    (successes setup client) (successes setup client).

(** The exact sum of the integers of a list. *)
Definition sumZ (values : list Z) : Z := fold_right Z.add 0 values.

(** What the successful requests brought back, in the order in which
    [Range] visits the TTFT map. *)
Definition ttftSamples (setup : SpeedMeasurement.t) (client : Client)
    (sched : Schedule) : list float64 :=
  (fun i => ttft (ask setup client i)) <$> rangeTtfts sched.

(** The token totals of the successful requests, as [int]s. *)
Definition totalCompletion (setup : SpeedMeasurement.t) (client : Client) : Z :=
  Int.wrap64 (sumZ ((fun i => completionTokens (ask setup client i)) <$> successes setup client)).

Definition totalPrompt (setup : SpeedMeasurement.t) (client : Client) : Z :=
  Int.wrap64 (sumZ ((fun i => inputTokens (ask setup client i)) <$> successes setup client)).

(** The two counters, which are 32 bits wide. *)
Definition countSucceeded (setup : SpeedMeasurement.t) (client : Client) : Z :=
  Int.wrap32 (Z.of_nat (length (successes setup client))).

Definition countFailed (setup : SpeedMeasurement.t) (client : Client) : Z :=
  Int.wrap32 (Z.of_nat (length (failures setup client))).

(** ** Sample configurations and clients *)

(** A configuration with the given baseline latency (in milliseconds) and
    concurrency, a literal prompt and 512 output tokens. *)
Definition setupOf (latency : float64) (concurrency : Z) : SpeedMeasurement.t :=
  SpeedMeasurement.mk "http://localhost:8000/v1" "" "key" "model" "Hello"
    false 0 512 latency concurrency.

(** A client whose answer to the goroutine [index] is [reply index]. *)
Definition clientOf (reply : Z -> Reply) : Client :=
  mkClient (fun _ _ _ index => reply index) (fun _ _ _ index => reply index).

Definition success (ttft : float64) (completionTokens inputTokens : Z) : Reply :=
  mkReply ttft completionTokens inputTokens None.

Definition failure : Reply :=
  mkReply zero 0 0 (Some (Err "connection refused")).

(** [x] is a number (not a NaN) whose sign bit is [s]. *)
Definition has_sign (s : bool) (x : float64) : Prop :=
  match x with
  | S754_nan => False
  | S754_zero s' | S754_infinity s' | S754_finite s' _ _ => s' = s
  end.

(** A sentinel in the sense of the specification: a zero or a non-finite
    value (the result record has no validity flag). *)
Definition sentinel (x : float64) : bool := is_zero x || negb (is_finite x).

(** ** cmd: the measurement run *)

Module cmd.

Record Benchmark : Type := mkBenchmark {
  BaseURL : string;
  ApiVersion : string;
  ApiKey : string;
  ModelName : string;
  Prompt : string;
  NumWords : Z;
  MaxTokens : Z;
  UseRandomInput : bool;
  ConcurrencyLevels : list Z;
  InputTokens : Z
}.

(** The command-line flags [main] reads. *)
Record Flags : Type := mkFlags {
  baseURL : string;
  apiVersion : string;
  apiKey : string;
  model : string;
  prompt : string;
  numWords : Z;
  concurrencyStr : string;
  maxTokens : Z;
  format : string
}.

(** What lies outside the program during one invocation: the client, the
    answers of the model discovery, of the request that counts the prompt
    tokens and of the latency probe, and, for the run at each concurrency
    level, what the runtime decides and the duration that is measured. *)
Record World : Type := mkWorld {
  client : Client;
  firstAvailableModel : string + error;
  promptTokensProbe : Z + error;
  measuredLatency : float64 + error;
  scheduleAt : Z -> Schedule;
  durationAt : Z -> Z
}.

(** How an invocation ends: [log.Fatalf], or a return from [main]. *)
Inductive Exit : Type :=
  | Fatal (msg : string)
  | Returned.

(** What an invocation did: the configurations [Run] was called on, in
    order, the results obtained, and how it ended. *)
Record Trace : Type := mkTrace {
  runs : list SpeedMeasurement.t;
  results : list SpeedResult.t;
  exit : Exit
}.

Definition defaultPrompt : string :=
  "Write a long story, no less than 10,000 words, starting from a long, long time ago.".

Section Main.

Variable invalid : float64 -> Z.

(** The lexical part of [utils.ParseConcurrencyLevels], which is not among
    the sources: the integers written in the comma-separated flag text, or
    nothing when the text is not such a list. *)
Variable fields : string -> option (list Z).

(** Modelled from the spec: [utils.ParseConcurrencyLevels], of which [main]
    is the only part present. Section 7 has a concurrency that is zero or
    negative rejected as a configuration error before any fanout is
    launched; section 8 has it rejected at the validation of the
    configuration. *)
Definition ParseConcurrencyLevels (concurrencyStr : string) : list Z + error :=
  match fields concurrencyStr with
  | None => inr (Err "invalid concurrency level")
  | Some levels =>
      if forallb (fun concurrency => 0 <? concurrency) levels
      then inl levels
      else inr (Err "concurrency level must be positive")
  end.

Definition measureSpeed (benchmark : Benchmark) (world : World)
    (latency : float64) (concurrency : Z)
    : SpeedMeasurement.t * (SpeedResult.t + error) :=
  let speedMeasurement :=
    SpeedMeasurement.mk (BaseURL benchmark) (ApiVersion benchmark)
      (ApiKey benchmark) (ModelName benchmark) (Prompt benchmark)
      (UseRandomInput benchmark) (NumWords benchmark) (MaxTokens benchmark)
      latency concurrency in
  match Run invalid speedMeasurement (client world)
          (scheduleAt world concurrency) (durationAt world concurrency) with
  | (result, Some _) => (speedMeasurement, inr (Err "measurement error"))
  | (result, None) => (speedMeasurement, inl result)
  end.

(** The loop over the concurrency levels, common to [run] and [runCli]: it
    stops at the first measurement that returns an error. *)
Fixpoint measureLevels (benchmark : Benchmark) (world : World)
    (latency : float64) (levels : list Z)
    : list SpeedMeasurement.t * list SpeedResult.t * option error :=
  match levels with
  | [] => ([], [], None)
  | concurrency :: levels =>
      match measureSpeed benchmark world latency concurrency with
      | (setup, inr e) => ([setup], [], Some e)
      | (setup, inl result) =>
          let '(setups, results, e) := measureLevels benchmark world latency levels in
          (setup :: setups, result :: results, e)
      end
  end.

(** [run] and [runCli]: the latency probe, then the levels. They differ in
    what they print. *)
Definition run (benchmark : Benchmark) (world : World)
    : list SpeedMeasurement.t * list SpeedResult.t * option error :=
  match measuredLatency world with
  | inr _ => ([], [], Some (Err "error testing latency"))
  | inl latency =>
      measureLevels benchmark world latency (ConcurrencyLevels benchmark)
  end.

Definition runCli (benchmark : Benchmark) (world : World)
    : list SpeedMeasurement.t * list SpeedResult.t * option error :=
  match measuredLatency world with
  | inr _ => ([], [], Some (Err "latency test error"))
  | inl latency =>
      measureLevels benchmark world latency (ConcurrencyLevels benchmark)
  end.

(** [main], from the parsing of the concurrency levels to the end of the
    benchmark. The construction of the HTTP client and the printing of the
    results are left out. *)
Definition main (flags : Flags) (world : World) : Trace :=
  match ParseConcurrencyLevels (concurrencyStr flags) with
  | inr _ => mkTrace [] [] (Fatal "Invalid concurrency levels")
  | inl concurrencyLevels =>
      if String.eqb (baseURL flags) ""
      then mkTrace [] [] (Fatal "--base-url is required")
      else
        let discovered :=
          if String.eqb (model flags) "" then firstAvailableModel world
          else inl (model flags) in
        match discovered with
        | inr _ => mkTrace [] [] Returned
        | inl modelName =>
            let useRandomInput :=
              if negb (String.eqb (prompt flags) defaultPrompt) then false
              else negb (numWords flags =? 0) in
            match promptTokensProbe world with
            | inr _ => mkTrace [] [] (Fatal "Error getting prompt tokens")
            | inl promptTokens =>
                let benchmark :=
                  mkBenchmark (baseURL flags) (apiVersion flags) (apiKey flags)
                    modelName (prompt flags) (numWords flags) (maxTokens flags)
                    useRandomInput concurrencyLevels promptTokens in
                let '(setups, results, e) :=
                  if String.eqb (format flags) "" then runCli benchmark world
                  else run benchmark world in
                match e with
                | Some _ => mkTrace setups results (Fatal "Error running benchmark")
                | None => mkTrace setups results Returned
                end
            end
        end
  end.

End Main.

End cmd.

(** ** Notions the statements use *)

(** A rank that orders the values as [sort.less] does: the NaN first, then
    the negative infinity, the negative numbers, the zeros, the positive
    numbers, the positive infinity. *)
Definition rank (x : float64) : Z * Z * Z :=
  match x with
  | S754_nan => (0, 0, 0)
  | S754_infinity true => (1, 0, 0)
  | S754_finite true m e => (2, - e, - Zpos m)
  | S754_zero _ => (3, 0, 0)
  | S754_finite false m e => (4, e, Zpos m)
  | S754_infinity false => (5, 0, 0)
  end.

Definition rank_lt (a b : Z * Z * Z) : Prop :=
  a.1.1 < b.1.1 ∨ (a.1.1 = b.1.1 ∧ (a.1.2 < b.1.2 ∨ (a.1.2 = b.1.2 ∧ a.2 < b.2))).

(** The values in increasing order: no value is less than one before it. *)
Definition ascending (l : list float64) : Prop :=
  StronglySorted (fun a b => sort.less b a = false) l.

(** The number of positions [shr_fexp] drops from a mantissa above the
    subnormal range: what exceeds 53 digits. *)
Definition excess (m : Z) : Z := Z.max 0 (Zdigits2 m - 53).

(** ** utils: the name of the results file *)

(** [strings.ReplaceAll(s, old, new)] where [old] and [new] are one byte
    each, as the two calls of [SaveResultsToMD] have them. *)
Fixpoint ReplaceAllByte (s : string) (old new : Ascii.ascii) : string :=
  match s with
  | EmptyString => EmptyString
  | String c s' => String (if Ascii.eqb c old then new else c) (ReplaceAllByte s' old new)
  end.

Section FileName.

(** [strings.TrimSpace], of the standard library. *)
Variable TrimSpace : string -> string.

(** The file [SaveResultsToMD] creates: the model name with the path
    separators replaced, trimmed, and replaced by a default when nothing is
    left of it. *)
Definition resultsFileName (modelName : string) : string :=
  let safeModelName := ReplaceAllByte modelName "/"%char "_"%char in
  let safeModelName := ReplaceAllByte safeModelName "\"%char "_"%char in
  let safeModelName := TrimSpace safeModelName in
  let safeModelName := if String.eqb safeModelName "" then "model" else safeModelName in
  String.append "API_Throughput_" (String.append safeModelName ".md").

End FileName.

(** The white space of ASCII: tab, line feed, vertical tab, form feed,
    carriage return and space. *)
Definition isAsciiSpace (c : Ascii.ascii) : bool :=
  match Ascii.nat_of_ascii c with
  | 9%nat | 10%nat | 11%nat | 12%nat | 13%nat | 32%nat => true
  | _ => false
  end.

Fixpoint trimLeftAscii (s : string) : string :=
  match s with
  | EmptyString => EmptyString
  | String c s' => if isAsciiSpace c then trimLeftAscii s' else s
  end.

Fixpoint trimRightAscii (s : string) : string :=
  match s with
  | EmptyString => EmptyString
  | String c s' =>
      match trimRightAscii s' with
      | EmptyString => if isAsciiSpace c then EmptyString else String c EmptyString
      | t => String c t
      end
  end.

(** What [strings.TrimSpace] does to a text of ASCII characters. *)
Definition trimSpaceAscii (s : string) : string := trimRightAscii (trimLeftAscii s).

(** The configuration [measureSpeed] builds for a concurrency level. *)
Definition configAt (benchmark : cmd.Benchmark) (latency : float64) (concurrency : Z)
    : SpeedMeasurement.t :=
  SpeedMeasurement.mk (cmd.BaseURL benchmark) (cmd.ApiVersion benchmark)
    (cmd.ApiKey benchmark) (cmd.ModelName benchmark) (cmd.Prompt benchmark)
    (cmd.UseRandomInput benchmark) (cmd.NumWords benchmark) (cmd.MaxTokens benchmark)
    latency concurrency.

(** The result [Run] gives at a concurrency level in a world. *)
Definition resultAt (invalid : float64 -> Z) (benchmark : cmd.Benchmark)
    (world : cmd.World) (latency : float64) (concurrency : Z) : SpeedResult.t :=
  fst (Run invalid (configAt benchmark latency concurrency) (cmd.client world)
         (cmd.scheduleAt world concurrency) (cmd.durationAt world concurrency)).

(** The negative zero, the one value that compares equal to another
    value, the positive zero, without being it. *)
Definition neg_zero : float64 := S754_zero true.

(** [x] is a NaN or a number whose sign bit is clear. *)
Definition nonneg_or_nan (x : float64) : Prop :=
  match x with
  | S754_nan => True
  | S754_zero s | S754_infinity s | S754_finite s _ _ => s = false
  end.

(** ** Machine integers: lemmas *)

Lemma wrap_idem_add w a b : 0 < w -> Int.wrap w (Int.wrap w a + b) = Int.wrap w (a + b).
Proof.
  intros Hw. unfold Int.wrap.
  replace ((a + 2 ^ (w - 1)) `mod` 2 ^ w - 2 ^ (w - 1) + b + 2 ^ (w - 1))
    with ((a + 2 ^ (w - 1)) `mod` 2 ^ w + b) by lia.
  rewrite Zplus_mod_idemp_l. f_equal. f_equal. lia.
Qed.

Lemma wrap_small w z : 0 < w -> - 2 ^ (w - 1) <= z < 2 ^ (w - 1) -> Int.wrap w z = z.
Proof.
  intros Hw Hz. unfold Int.wrap.
  assert (2 ^ w = 2 * 2 ^ (w - 1)) as ->.
  { rewrite <- Z.pow_succ_r by lia. f_equal. lia. }
  rewrite Z.mod_small; lia.
Qed.

Lemma wrap32_small z : - 2 ^ 31 <= z <= Int.MaxInt32 -> Int.wrap32 z = z.
Proof. intros Hz. apply wrap_small; [lia|]. unfold Int.MaxInt32 in Hz. simpl. lia. Qed.

Lemma wrap64_small z : Int.MinInt64 <= z <= Int.MaxInt64 -> Int.wrap64 z = z.
Proof.
  intros Hz. apply wrap_small; [lia|].
  unfold Int.MinInt64, Int.MaxInt64 in Hz. simpl. lia.
Qed.

Lemma sumInts_from (values : list Z) (a : Z) :
  fold_left (fun total value => Int.wrap64 (total + value)) values (Int.wrap64 a)
  = Int.wrap64 (a + sumZ values).
Proof.
  revert a. induction values as [|v values IH]; intros a; simpl.
  - f_equal. lia.
  - unfold Int.wrap64 at 2. rewrite wrap_idem_add by lia.
    fold Int.wrap64. rewrite IH. f_equal. lia.
Qed.

Lemma sumInts_sumZ (values : list Z) : sumInts values = Int.wrap64 (sumZ values).
Proof.
  unfold sumInts. change 0 with (Int.wrap64 0) at 1. by rewrite sumInts_from.
Qed.

Lemma sumZ_Permutation (l1 l2 : list Z) : l1 ≡ₚ l2 -> sumZ l1 = sumZ l2.
Proof. induction 1; simpl in *; lia. Qed.

(** ** The fanout *)

Section FanoutFacts.

Variables (setup : SpeedMeasurement.t) (client : Client).

Abbreviation W := (worker setup client).
Abbreviation ok := (fun i => Is_true (succeeded setup client i)).

Lemma worker_responseTokens s i k :
  responseTokens (W s i) !! k =
    if decide (k = i ∧ succeeded setup client i)
    then Some (completionTokens (ask setup client i))
    else responseTokens s !! k.
Proof.
  unfold worker, succeeded. destruct (err (ask setup client i)); simpl.
  - rewrite decide_False; [done | by intros [_ []]].
  - destruct (decide (k = i)) as [->|Hne].
    + rewrite decide_True by done. by rewrite lookup_insert_eq.
    + rewrite decide_False by (by intros [? _]). by rewrite lookup_insert_ne.
Qed.

Lemma worker_promptTokens s i k :
  promptTokens (W s i) !! k =
    if decide (k = i ∧ succeeded setup client i)
    then Some (inputTokens (ask setup client i))
    else promptTokens s !! k.
Proof.
  unfold worker, succeeded. destruct (err (ask setup client i)); simpl.
  - rewrite decide_False; [done | by intros [_ []]].
  - destruct (decide (k = i)) as [->|Hne].
    + rewrite decide_True by done. by rewrite lookup_insert_eq.
    + rewrite decide_False by (by intros [? _]). by rewrite lookup_insert_ne.
Qed.

Lemma worker_ttfts s i k :
  ttfts (W s i) !! k =
    if decide (k = i ∧ succeeded setup client i)
    then Some (ttft (ask setup client i))
    else ttfts s !! k.
Proof.
  unfold worker, succeeded. destruct (err (ask setup client i)); simpl.
  - rewrite decide_False; [done | by intros [_ []]].
  - destruct (decide (k = i)) as [->|Hne].
    + rewrite decide_True by done. by rewrite lookup_insert_eq.
    + rewrite decide_False by (by intros [? _]). by rewrite lookup_insert_ne.
Qed.

(** A map after the goroutines of [order] have run holds, for each of them
    that succeeded, what that goroutine stored, whatever the order. *)
Lemma fold_worker_lookup {A} (proj : Shared -> gmap Z A) (val : Reply -> A) :
  (forall s i k, proj (W s i) !! k =
     if decide (k = i ∧ succeeded setup client i)
     then Some (val (ask setup client i)) else proj s !! k) ->
  forall order s k,
    proj (fold_left W order s) !! k =
      if decide (k ∈ order ∧ succeeded setup client k)
      then Some (val (ask setup client k)) else proj s !! k.
Proof.
  intros Hstep. induction order as [|i order IH]; intros s k; cbn [fold_left].
  - rewrite decide_False; [done | by intros [?%elem_of_nil _]].
  - rewrite IH, Hstep.
    destruct (decide (k ∈ order ∧ succeeded setup client k)) as [[Hin Hk]|Hn1];
      destruct (decide (k ∈ i :: order ∧ succeeded setup client k)) as [[Hin' Hk']|Hn3];
      destruct (decide (k = i ∧ succeeded setup client i)) as [[Hki Hi]|Hn2];
      try done; try (by subst k); exfalso.
    all: try (apply Hn3; split; [by apply list_elem_of_further | done]).
    all: try (subst k; apply Hn3; split; [by apply list_elem_of_here | done]).
    all: apply elem_of_cons in Hin' as [->|Hin']; [by apply Hn2 | by apply Hn1].
Qed.

Lemma worker_successfulRequests s i :
  successfulRequests (W s i) =
    if succeeded setup client i
    then Int.wrap32 (successfulRequests s + 1) else successfulRequests s.
Proof. unfold worker, succeeded. by destruct (err (ask setup client i)). Qed.

Lemma worker_failedRequests s i :
  failedRequests (W s i) =
    if succeeded setup client i
    then failedRequests s else Int.wrap32 (failedRequests s + 1).
Proof. unfold worker, succeeded. by destruct (err (ask setup client i)). Qed.

Lemma fold_worker_successful order s a :
  successfulRequests s = Int.wrap32 a ->
  successfulRequests (fold_left W order s) =
    Int.wrap32 (a + Z.of_nat (length (filter ok order))).
Proof.
  revert s a. induction order as [|i order IH]; intros s a Hs; cbn [fold_left].
  - rewrite Hs. f_equal. simpl. lia.
  - rewrite filter_cons.
    pose proof (worker_successfulRequests s i) as Hw.
    destruct (succeeded setup client i) eqn:Hi.
    + rewrite decide_True by done.
      rewrite (IH _ (a + 1)).
      * f_equal. cbn [length]. lia.
      * rewrite Hw, Hs. unfold Int.wrap32. by rewrite wrap_idem_add by lia.
    + rewrite decide_False by (by intros []).
      apply IH. by rewrite Hw.
Qed.

Lemma fold_worker_failed order s a :
  failedRequests s = Int.wrap32 a ->
  failedRequests (fold_left W order s) =
    Int.wrap32 (a + Z.of_nat (length (filter (fun i => ¬ ok i) order))).
Proof.
  revert s a. induction order as [|i order IH]; intros s a Hs; cbn [fold_left].
  - rewrite Hs. f_equal. simpl. lia.
  - rewrite filter_cons.
    pose proof (worker_failedRequests s i) as Hw.
    destruct (succeeded setup client i) eqn:Hi.
    + rewrite decide_False by (intros Hn; by apply Hn).
      apply IH. by rewrite Hw.
    + rewrite decide_True by (by intros []).
      rewrite (IH _ (a + 1)).
      * f_equal. cbn [length]. lia.
      * rewrite Hw, Hs. unfold Int.wrap32. by rewrite wrap_idem_add by lia.
Qed.

Lemma Range_fold_worker {A} (proj : Shared -> gmap Z A) (val : Reply -> A) :
  (forall s i k, proj (W s i) !! k =
     if decide (k = i ∧ succeeded setup client i)
     then Some (val (ask setup client i)) else proj s !! k) ->
  forall order visit,
    (forall k, k ∈ visit -> k ∈ order ∧ succeeded setup client k) ->
    Range visit (proj (fanout setup client order))
    = (fun i => val (ask setup client i)) <$> visit.
Proof.
  intros Hstep order visit. unfold Range, fanout.
  induction visit as [|k visit IH]; intros Hv; [done|].
  cbn [omap list_omap fmap list_fmap].
  rewrite (fold_worker_lookup proj val Hstep).
  rewrite decide_True by (apply Hv; apply list_elem_of_here).
  cbn. f_equal. apply IH. intros k' Hk'. apply Hv. by apply list_elem_of_further.
Qed.

Lemma successes_elem sched k :
  completion sched ≡ₚ launched setup ->
  k ∈ successes setup client -> k ∈ completion sched ∧ succeeded setup client k.
Proof.
  intros Hc Hk. apply list_elem_of_filter in Hk as [Hok Hk].
  split; [by rewrite Hc | done].
Qed.

(** The state the fanout leaves does not depend on the order in which the
    goroutines finish. *)
Lemma fanout_order_irrelevant order1 order2 :
  order1 ≡ₚ order2 -> fanout setup client order1 = fanout setup client order2.
Proof.
  intros Hperm. unfold fanout.
  assert (forall s1 s2 : Shared,
            responseTokens s1 = responseTokens s2 -> promptTokens s1 = promptTokens s2 ->
            ttfts s1 = ttfts s2 -> successfulRequests s1 = successfulRequests s2 ->
            failedRequests s1 = failedRequests s2 -> s1 = s2) as Hext.
  { intros [] []; cbn; by intros -> -> -> -> ->. }
  apply Hext.
  - apply map_eq. intros k.
    rewrite !(fold_worker_lookup responseTokens completionTokens worker_responseTokens).
    apply decide_ext. by rewrite Hperm.
  - apply map_eq. intros k.
    rewrite !(fold_worker_lookup promptTokens inputTokens worker_promptTokens).
    apply decide_ext. by rewrite Hperm.
  - apply map_eq. intros k.
    rewrite !(fold_worker_lookup ttfts ttft worker_ttfts).
    apply decide_ext. by rewrite Hperm.
  - rewrite !(fold_worker_successful _ _ 0) by done. by rewrite Hperm.
  - rewrite !(fold_worker_failed _ _ 0) by done. by rewrite Hperm.
Qed.

(** Under a schedule of the runtime, [Run] is the statistics of the
    requests that succeeded, whatever the order the goroutines finished in. *)
Lemma Run_reduce invalid sched duration :
  valid_schedule setup client sched ->
  Run invalid setup client sched duration =
    (reduce invalid setup (countSucceeded setup client) (countFailed setup client)
       (totalPrompt setup client) (totalCompletion setup client)
       (ttftSamples setup client sched) duration, None).
Proof.
  intros [Hc Hr Hp Ht]. unfold Run. f_equal.
  assert (forall visit, visit ≡ₚ successes setup client ->
            forall k, k ∈ visit -> k ∈ completion sched ∧ succeeded setup client k) as Hin.
  { intros visit Hv k Hk. apply successes_elem; [done|]. by rewrite <- Hv. }
  rewrite (Range_fold_worker responseTokens completionTokens worker_responseTokens)
    by (by apply Hin).
  rewrite (Range_fold_worker promptTokens inputTokens worker_promptTokens)
    by (by apply Hin).
  rewrite (Range_fold_worker ttfts ttft worker_ttfts) by (by apply Hin).
  rewrite !sumInts_sumZ.
  unfold fanout.
  rewrite (fold_worker_successful _ _ 0) by done.
  rewrite (fold_worker_failed _ _ 0) by done.
  unfold countSucceeded, countFailed, totalPrompt, totalCompletion, successes,
    failures, ttftSamples.
  rewrite !Z.add_0_l.
  rewrite (sumZ_Permutation _ _ (fmap_Permutation _ _ _ Hr)).
  rewrite (sumZ_Permutation _ _ (fmap_Permutation _ _ _ Hp)).
  by rewrite Hc.
Qed.

End FanoutFacts.

(** ** float64: lemmas *)

Section RoundingFacts.

Abbreviation bra := (binary_round_aux prec emax).

Lemma digits2_pos_size p : digits2_pos p = Pos.size p.
Proof. induction p; simpl; congruence. Qed.

Lemma Zdigits2_log2 p : Zdigits2 (Zpos p) = Z.log2 (Zpos p) + 1.
Proof.
  unfold Zdigits2. rewrite digits2_pos_size.
  destruct p; simpl; lia.
Qed.

Lemma Zdigits2_bounds p : 2 ^ (Zdigits2 (Zpos p) - 1) <= Zpos p < 2 ^ Zdigits2 (Zpos p).
Proof.
  rewrite Zdigits2_log2.
  replace (Z.log2 (Z.pos p) + 1 - 1) with (Z.log2 (Z.pos p)) by lia.
  apply Z.log2_spec. lia.
Qed.

Lemma iter_pos_invariant {A} (P : A -> Prop) (f : A -> A) :
  (forall x, P x -> P (f x)) -> forall p x, P x -> P (SpecFloat.iter_pos f p x).
Proof.
  intros Hf. induction p as [p IH|p IH|]; intros x Hx; simpl; auto.
Qed.

Lemma shr_1_m mrs : 0 <= shr_m mrs -> shr_m (shr_1 mrs) = shr_m mrs / 2.
Proof.
  destruct mrs as [m r s]. simpl. intros Hm.
  destruct m as [|[p|p|]|p]; cbn [shr_m]; try lia; try reflexivity.
  - apply (Z.div_unique _ _ _ 1); lia.
  - apply (Z.div_unique _ _ _ 0); lia.
Qed.

Lemma shr_1_nonneg mrs : 0 <= shr_m mrs -> 0 <= shr_m (shr_1 mrs).
Proof. intros Hm. rewrite shr_1_m by done. apply Z.div_pos; lia. Qed.

Lemma pow2_xO p : 2 ^ Zpos p~0 = 2 ^ Zpos p * 2 ^ Zpos p.
Proof. rewrite <- Z.pow_add_r by lia. f_equal. lia. Qed.

Lemma pow2_xI p : 2 ^ Zpos p~1 = 2 * (2 ^ Zpos p * 2 ^ Zpos p).
Proof.
  rewrite <- Z.pow_add_r by lia. rewrite <- Z.pow_succ_r by lia. f_equal. lia.
Qed.

(** Shifting right by [p] positions divides the mantissa by [2^p]. *)
Lemma iter_shr_1_m p : forall mrs,
  0 <= shr_m mrs -> shr_m (SpecFloat.iter_pos shr_1 p mrs) = shr_m mrs / 2 ^ Zpos p.
Proof.
  assert (forall q mrs, 0 <= shr_m mrs -> 0 <= shr_m (SpecFloat.iter_pos shr_1 q mrs)) as Hnn.
  { intros q mrs. apply (iter_pos_invariant (fun x => 0 <= shr_m x)). apply shr_1_nonneg. }
  assert (0 < 2 ^ Zpos p) by (apply Z.pow_pos_nonneg; lia).
  induction p as [p IH|p IH|]; intros mrs Hm; simpl SpecFloat.iter_pos.
  - assert (0 < 2 ^ Zpos p) by (apply Z.pow_pos_nonneg; lia).
    rewrite IH, IH, shr_1_m; auto using shr_1_nonneg.
    rewrite !Z.div_div by lia. by rewrite pow2_xI, Z.mul_assoc.
  - assert (0 < 2 ^ Zpos p) by (apply Z.pow_pos_nonneg; lia).
    rewrite IH, IH; auto.
    rewrite !Z.div_div by lia. by rewrite pow2_xO.
  - rewrite shr_1_m by done. reflexivity.
Qed.

Lemma shr_record_of_loc_m m l : shr_m (shr_record_of_loc m l) = m.
Proof. by destruct l as [|[]]. Qed.

Lemma shr_fexp_spec m e l :
  0 < m -> -1074 <= e ->
  shr_m (fst (shr_fexp prec emax m e l)) = m / 2 ^ excess m ∧
  snd (shr_fexp prec emax m e l) = e + excess m.
Proof.
  intros Hm He. unfold shr_fexp, shr, excess, fexp, emin, prec, emax.
  destruct m as [|p|p]; try lia.
  pose proof (Zdigits2_bounds p) as [Hlo Hhi].
  set (D := Zdigits2 (Z.pos p)) in *.
  destruct (Z.max (D + e - 53) (3 - 1024 - 53) - e) as [|k|k] eqn:Hk; cbn [fst snd].
  - rewrite shr_record_of_loc_m.
    replace (Z.max 0 (D - 53)) with 0 by lia.
    rewrite Z.pow_0_r, Z.div_1_r. lia.
  - rewrite iter_shr_1_m by (rewrite shr_record_of_loc_m; lia).
    rewrite shr_record_of_loc_m.
    replace (Z.max 0 (D - 53)) with (Z.pos k) by lia. lia.
  - rewrite shr_record_of_loc_m.
    replace (Z.max 0 (D - 53)) with 0 by lia.
    rewrite Z.pow_0_r, Z.div_1_r. lia.
Qed.

Lemma excess_div_pos p : 0 < Zpos p / 2 ^ excess (Zpos p).
Proof.
  pose proof (Zdigits2_bounds p) as [Hlo Hhi]. unfold excess.
  set (D := Zdigits2 (Z.pos p)) in *.
  assert (1 <= D) by (subst D; rewrite Zdigits2_log2; pose proof (Z.log2_nonneg (Zpos p)); lia).
  apply Z.div_str_pos. split; [apply Z.pow_pos_nonneg; lia|].
  etrans; [|exact Hlo]. apply Z.pow_le_mono_r; lia.
Qed.

Lemma excess_div_lt p : Zpos p / 2 ^ excess (Zpos p) < 2 ^ 53.
Proof.
  pose proof (Zdigits2_bounds p) as [Hlo Hhi]. unfold excess.
  set (D := Zdigits2 (Z.pos p)) in *.
  apply Z.div_lt_upper_bound; [apply Z.pow_pos_nonneg; lia|].
  rewrite <- Z.pow_add_r by lia.
  eapply Z.lt_le_trans; [exact Hhi|]. apply Z.pow_le_mono_r; lia.
Qed.

Lemma round_nearest_even_bounds m l :
  m <= round_nearest_even m l <= m + 1.
Proof. destruct l as [|[]]; simpl; try destruct (Z.even m); lia. Qed.

Lemma excess_le_1 m : 0 < m -> m <= 2 ^ 53 -> excess m <= 1.
Proof.
  intros Hm Hle. destruct m as [|p|p]; try lia.
  unfold excess. rewrite Zdigits2_log2.
  assert (Z.log2 (Z.pos p) < 54); [|lia].
  apply Z.log2_lt_pow2; [lia|]. eapply Z.le_lt_trans; [exact Hle|]. done.
Qed.

(** Rounding a positive mantissa whose exponent is not below the least one
    gives a number of the sign asked for, never a zero or a NaN; its
    exponent grows by what is dropped, and by one more at most. *)
Lemma binary_round_aux_pos sx mx ex lx :
  0 < mx -> -1074 <= ex ->
  (bra sx mx ex lx = S754_infinity sx ∧ 971 < ex + excess mx + 1) ∨
  ∃ m e, bra sx mx ex lx = S754_finite sx m e ∧ ex <= e <= ex + excess mx + 1.
Proof.
  intros Hm He. unfold binary_round_aux.
  destruct (shr_fexp_spec mx ex lx Hm He) as [Hm1 He1].
  destruct (shr_fexp prec emax mx ex lx) as [mrs' e']. cbn [fst snd] in *.
  set (m2 := round_nearest_even (shr_m mrs') (loc_of_shr_record mrs')).
  pose proof (round_nearest_even_bounds (shr_m mrs') (loc_of_shr_record mrs')) as Hm2.
  fold m2 in Hm2.
  assert (0 <= excess mx) as Hex by (unfold excess; lia).
  destruct mx as [|p|p]; try lia.
  pose proof (excess_div_pos p). pose proof (excess_div_lt p).
  assert (0 < m2) as Hm2pos by lia.
  destruct (shr_fexp_spec m2 e' loc_Exact Hm2pos ltac:(lia)) as [Hm3 He3].
  destruct (shr_fexp prec emax m2 e' loc_Exact) as [mrs'' e'']. cbn [fst snd] in *.
  assert (excess m2 <= 1) by (apply excess_le_1; lia).
  assert (0 <= excess m2) by (unfold excess; lia).
  destruct m2 as [|q|q]; try lia.
  pose proof (excess_div_pos q).
  destruct (shr_m mrs'') as [|r|r]; try lia.
  destruct (Z.leb_spec e'' (emax - prec)) as [Hle|Hgt].
  - right. eexists _, _. split; [done|lia].
  - left. split; [done|]. unfold emax, prec in Hgt. lia.
Qed.

Lemma Pos_iter_xO p d : Zpos (Pos.iter xO p d) = Zpos p * 2 ^ Zpos d.
Proof.
  induction d as [|d IH] using Pos.peano_ind.
  - simpl. lia.
  - rewrite Pos.iter_succ, Pos2Z.inj_xO, IH, Pos2Z.inj_succ, Z.pow_succ_r by lia. lia.
Qed.

(** [binary_round] of the integer [p]: the mantissa aligned on 53 digits
    where it is shorter, and its exponent. *)
Lemma binary_round_int_align p :
  let '(mz, ez) := shl_align p 0 (fexp prec emax (Zpos (digits2_pos p) + 0)) in
  -52 <= ez ∧ ez + excess (Zpos mz) <= excess (Zpos p).
Proof.
  unfold shl_align, fexp, emin, prec, emax, excess.
  pose proof (Zdigits2_bounds p) as [Hlo Hhi].
  pose proof (Zdigits2_log2 p) as HD. pose proof (Z.log2_nonneg (Zpos p)).
  change (Z.pos (digits2_pos p)) with (Zdigits2 (Zpos p)).
  set (D := Zdigits2 (Z.pos p)) in *.
  destruct (Z.max (D + 0 - 53) (3 - 1024 - 53) - 0) as [|k|k] eqn:Hk;
    cbv beta iota.
  - fold D. lia.
  - fold D. lia.
  - assert (Zdigits2 (Z.pos (Pos.iter xO p k)) = D + Zpos k) as ->.
    { rewrite Zdigits2_log2, Pos_iter_xO, Z.log2_mul_pow2 by lia. lia. }
    lia.
Qed.

Lemma binary_round_int sx p :
  (binary_round prec emax sx p 0 = S754_infinity sx ∧ 971 < excess (Zpos p) + 1) ∨
  ∃ m e, binary_round prec emax sx p 0 = S754_finite sx m e.
Proof.
  unfold binary_round. pose proof (binary_round_int_align p) as Ha.
  destruct (shl_align p 0 (fexp prec emax (Z.pos (digits2_pos p) + 0))) as [mz ez].
  destruct Ha as [Hez Hex].
  destruct (binary_round_aux_pos sx (Zpos mz) ez loc_Exact) as [[-> Hb]|(m & e & -> & _)];
    [lia | lia | left | right; eauto].
  split; [done|]. lia.
Qed.

Lemma excess_int64 p : Zpos p < 2 ^ 64 -> excess (Zpos p) <= 11.
Proof.
  intros Hp. unfold excess. rewrite Zdigits2_log2.
  assert (Z.log2 (Z.pos p) < 64); [|lia]. by apply Z.log2_lt_pow2.
Qed.

(** [float64(n)] of a positive [n] is a positive number or [+Inf]. *)
Lemma of_int_pos n :
  0 < n -> of_int n = S754_infinity false ∨ ∃ m e, of_int n = S754_finite false m e.
Proof.
  intros Hn. destruct n as [|p|p]; try lia. unfold of_int, binary_normalize.
  destruct (binary_round_int false p) as [[-> _]|?]; auto.
Qed.

(** [float64(n)] of an [int] is finite, with the sign of [n]. *)
Lemma of_int_int64 n :
  Int.MinInt64 <= n <= Int.MaxInt64 ->
  match n with
  | Z0 => of_int n = S754_zero false
  | Zpos _ => ∃ m e, of_int n = S754_finite false m e
  | Zneg _ => ∃ m e, of_int n = S754_finite true m e
  end.
Proof.
  unfold Int.MinInt64, Int.MaxInt64. intros Hn.
  destruct n as [|p|p]; [done| |]; unfold of_int, binary_normalize.
  - destruct (binary_round_int false p) as [[_ Hb]|?]; [|done].
    pose proof (excess_int64 p). lia.
  - destruct (binary_round_int true p) as [[_ Hb]|?]; [|done].
    pose proof (excess_int64 p). lia.
Qed.


Lemma shr_fexp_nonneg m e l : 0 <= m -> 0 <= shr_m (fst (shr_fexp prec emax m e l)).
Proof.
  intros Hm. unfold shr_fexp, shr.
  destruct (fexp prec emax (Zdigits2 m + e) - e); cbn [fst];
    try (by rewrite shr_record_of_loc_m).
  apply (iter_pos_invariant (fun x => 0 <= shr_m x)); [apply shr_1_nonneg|].
  by rewrite shr_record_of_loc_m.
Qed.

(** Rounding a mantissa that is not negative gives a number of the sign
    asked for. *)
Lemma binary_round_aux_sign sx mx ex lx : 0 <= mx -> has_sign sx (bra sx mx ex lx).
Proof.
  intros Hm. unfold binary_round_aux.
  pose proof (shr_fexp_nonneg mx ex lx Hm) as H1.
  destruct (shr_fexp prec emax mx ex lx) as [mrs' e']. cbn [fst] in H1.
  pose proof (round_nearest_even_bounds (shr_m mrs') (loc_of_shr_record mrs')) as Hr.
  set (m2 := round_nearest_even (shr_m mrs') (loc_of_shr_record mrs')) in *.
  pose proof (shr_fexp_nonneg m2 e' loc_Exact ltac:(lia)) as H2.
  destruct (shr_fexp prec emax m2 e' loc_Exact) as [mrs'' e'']. cbn [fst] in H2.
  destruct (shr_m mrs''); [done| |lia].
  by destruct (e'' <=? emax - prec).
Qed.

Lemma binary_round_sign sx p e : has_sign sx (binary_round prec emax sx p e).
Proof.
  unfold binary_round. destruct (shl_align _ _ _) as [mz ez].
  by apply binary_round_aux_sign.
Qed.

Lemma SFdiv_core_nonneg m1 e1 m2 e2 :
  0 <= fst (fst (SFdiv_core_binary prec emax (Zpos m1) e1 (Zpos m2) e2)).
Proof.
  unfold SFdiv_core_binary.
  set (s := e1 - e2 - _).
  set (m' := match s with Z.pos _ => Z.shiftl (Z.pos m1) s | 0 => Z.pos m1 | Z.neg _ => 0 end).
  assert (0 <= m') as Hm'.
  { subst m'. destruct s; try lia. apply Z.shiftl_nonneg. lia. }
  pose proof (Z.div_pos m' (Zpos m2) Hm' ltac:(lia)) as Hq.
  unfold Z.div in Hq. by destruct (Z.div_eucl m' (Z.pos m2)).
Qed.

End RoundingFacts.

Section ArithmeticFacts.

(** Dividing by a zero never gives a finite value. *)
Lemma div_by_zero x d : is_zero d = true -> is_finite (div x d) = false.
Proof. by destruct x, d. Qed.

(** A zero divided by a number that is not zero is a zero, with the sign
    of the divisor. *)
Lemma div_zero_l d :
  is_nan d = false -> is_zero d = false -> div zero d = S754_zero (signbit d).
Proof. by destruct d. Qed.

(** The quotient of a finite number by a number that is not zero is a number
    whose sign is the exclusive or of the signs. *)
Lemma div_sign sx sy x d :
  is_finite x = true -> is_zero d = false ->
  has_sign sx x -> has_sign sy d -> has_sign (xorb sx sy) (div x d).
Proof.
  destruct x as [s| | |s m e], d as [s'| | |s' m' e']; simpl; try done;
    try (by intros _ _ -> ->).
  intros _ _ -> ->. unfold div, SFdiv.
  pose proof (SFdiv_core_nonneg m e m' e') as Hq.
  destruct (SFdiv_core_binary prec emax (Z.pos m) e (Z.pos m') e') as [[mz ez] lz].
  by apply binary_round_aux_sign.
Qed.

Lemma mul_sign_finite sx x sy my ey :
  has_sign sx x -> has_sign (xorb sx sy) (mul x (S754_finite sy my ey)).
Proof.
  destruct x as [s| | |s m e]; simpl; try done; try (by intros ->).
  intros ->. by apply binary_round_aux_sign.
Qed.

Lemma div_sign_finite sx x sy my ey :
  has_sign sx x -> has_sign (xorb sx sy) (div x (S754_finite sy my ey)).
Proof.
  destruct x as [s| | |s m e]; simpl; try done; try (by intros ->).
  intros ->. unfold div, SFdiv.
  pose proof (SFdiv_core_nonneg m e my ey) as Hq.
  destruct (SFdiv_core_binary prec emax (Z.pos m) e (Z.pos my) ey) as [[mz ez] lz].
  by apply binary_round_aux_sign.
Qed.

Lemma Round_sign sx x : has_sign sx x -> has_sign sx (Round x).
Proof.
  destruct x as [s| | |s m e]; try done.
  intros Hs. cbn [has_sign] in Hs. subst s. unfold Round.
  destruct (0 <=? e); [done|].
  assert (0 <= Z.shiftr (Z.pos m) (- e)) as Hq by (apply Z.shiftr_nonneg; lia).
  set (q := if 2 ^ (- e - 1) <=? Z.land (Z.pos m) (Z.ones (- e)) then _ else _).
  assert (0 <= q) as Hq' by (subst q; destruct (_ <=? _); lia).
  destruct q as [|q|q]; [done | apply binary_round_sign | lia].
Qed.

Lemma of_int_100 : of_int 100 = S754_finite false 7036874417766400 (-46).
Proof. reflexivity. Qed.

(** Rounding to two decimals keeps a number a number, and keeps its sign. *)
Lemma roundToTwoDecimals_sign sx x :
  has_sign sx x -> has_sign sx (roundToTwoDecimals x).
Proof.
  intros Hx. unfold roundToTwoDecimals. rewrite of_int_100.
  rewrite <- (xorb_false_r sx). apply div_sign_finite.
  apply Round_sign. rewrite <- (xorb_false_r sx). by apply mul_sign_finite.
Qed.

Lemma roundToTwoDecimals_zero s : roundToTwoDecimals (S754_zero s) = S754_zero s.
Proof. by destruct s. Qed.

Lemma roundToTwoDecimals_infinity s :
  roundToTwoDecimals (S754_infinity s) = S754_infinity s.
Proof. by destruct s. Qed.

Lemma roundToTwoDecimals_nan : roundToTwoDecimals S754_nan = S754_nan.
Proof. reflexivity. Qed.

Lemma roundToTwoDecimals_not_finite x :
  is_finite x = false -> is_finite (roundToTwoDecimals x) = false.
Proof.
  by destruct x as [s|[]| |s m e].
Qed.

End ArithmeticFacts.


(** ** The counters and the success rate *)

Section CounterFacts.

Variables (setup : SpeedMeasurement.t) (client : Client).

Lemma inOrder_valid : valid_schedule setup client (inOrder setup client).
Proof. by constructor. Qed.

Lemma successes_failures_length :
  (length (successes setup client) + length (failures setup client))%nat
  = Z.to_nat (SpeedMeasurement.Concurrency setup).
Proof.
  unfold successes, failures. rewrite <- length_app.
  rewrite (Permutation_length (filter_app_complement _ (launched setup))).
  apply length_seqZ.
Qed.

Lemma all_succeed_successes :
  (forall i, i ∈ launched setup -> succeeded setup client i = true) ->
  successes setup client = launched setup ∧ failures setup client = [].
Proof.
  unfold successes, failures. generalize (launched setup) as l.
  induction l as [|i l IH]; intros Hall; [done|].
  rewrite !filter_cons.
  rewrite (Hall i) by apply list_elem_of_here.
  rewrite decide_True by done. rewrite decide_False by (intros Hn; by apply Hn).
  destruct IH as [-> ->]; [|done].
  intros j Hj. apply Hall. by apply list_elem_of_further.
Qed.

Lemma all_fail_successes :
  (forall i, i ∈ launched setup -> succeeded setup client i = false) ->
  successes setup client = [] ∧ failures setup client = launched setup.
Proof.
  unfold successes, failures. generalize (launched setup) as l.
  induction l as [|i l IH]; intros Hall; [done|].
  rewrite !filter_cons.
  rewrite (Hall i) by apply list_elem_of_here.
  rewrite decide_False by (by intros []). rewrite decide_True by (by intros []).
  destruct IH as [-> ->]; [|done].
  intros j Hj. apply Hall. by apply list_elem_of_further.
Qed.

End CounterFacts.

(** C10: whatever the configuration and the outcomes of the requests, all
    of them failing and a concurrency of zero or below included, [Run]
    returns a nil error; the failures show only in [FailedRequests], the
    32-bit count of the goroutines whose request failed, and in the success
    rate, the quotient of the count of successes by the concurrency. *)
Theorem Run_returns_nil_error invalid setup client sched duration :
  valid_schedule setup client sched ->
  let r := Run invalid setup client sched duration in
  snd r = None ∧
  SpeedResult.FailedRequests (fst r) = Int.wrap32 (Z.of_nat (length (failures setup client))) ∧
  SpeedResult.SuccessfulRequests (fst r) = Int.wrap32 (Z.of_nat (length (successes setup client))) ∧
  SpeedResult.SuccessRate (fst r) =
    if 0 <? SpeedMeasurement.Concurrency setup
    then div (of_int (SpeedResult.SuccessfulRequests (fst r)))
           (of_int (SpeedMeasurement.Concurrency setup))
    else zero.
Proof.
  intros Hv r. subst r. rewrite (Run_reduce _ _ _ _ _ Hv). done.
Qed.

(** C8, as the code has it: for every concurrency [N] from 1 up to the
    largest 32-bit integer and every pattern of outcomes, the two counters
    add up to [N] once the fanout is joined; the success rate is the count of
    successes divided by the configured [N], and is zero, without a division,
    when [N] is not positive. *)
Theorem Run_counts_all_requests invalid setup client sched duration :
  valid_schedule setup client sched ->
  let r := fst (Run invalid setup client sched duration) in
  let N := SpeedMeasurement.Concurrency setup in
  (1 <= N <= Int.MaxInt32 ->
     SpeedResult.SuccessfulRequests r + SpeedResult.FailedRequests r = N) ∧
  (1 <= N -> SpeedResult.SuccessRate r = div (of_int (SpeedResult.SuccessfulRequests r)) (of_int N)) ∧
  (N <= 0 -> SpeedResult.SuccessRate r = zero).
Proof.
  intros Hv r N. subst r. rewrite (Run_reduce _ _ _ _ _ Hv).
  cbn [fst]. unfold reduce.
  cbn [SpeedResult.SuccessfulRequests SpeedResult.FailedRequests SpeedResult.SuccessRate].
  fold N. split; [|split].
  - intros HN. unfold countSucceeded, countFailed.
    pose proof (successes_failures_length setup client) as Hlen. fold N in Hlen.
    rewrite !wrap32_small by lia. lia.
  - intros HN. destruct (Z.ltb_spec 0 N); [done|lia].
  - intros HN. destruct (Z.ltb_spec 0 N); [lia|done].
Qed.

(** When every request succeeds, the counter of successes is the concurrency,
    modulo 2^32. *)
Lemma all_succeed_counters invalid setup client duration :
  (forall i, succeeded setup client i = true) ->
  let r := fst (Run invalid setup client (inOrder setup client) duration) in
  SpeedResult.SuccessfulRequests r = Int.wrap32 (Z.max 0 (SpeedMeasurement.Concurrency setup)) ∧
  SpeedResult.FailedRequests r = 0.
Proof.
  intros Hall r. subst r.
  rewrite (Run_reduce _ _ _ _ _ (inOrder_valid setup client)).
  cbn [fst]. unfold reduce.
  cbn [SpeedResult.SuccessfulRequests SpeedResult.FailedRequests].
  unfold countSucceeded, countFailed.
  destruct (all_succeed_successes setup client) as [-> ->]; [by intros i _|].
  unfold launched. rewrite length_seqZ. split; [f_equal; lia | reflexivity].
Qed.

(** C8, as stated, fails at the first concurrency the 32-bit counters cannot
    hold: with 2^31 requests, all successful, the counter of successes has
    wrapped around to -2^31 and the two counters do not add up to [N]. *)
Lemma Run_counters_wrap :
  let setup := setupOf zero 2147483648 in
  let client := clientOf (fun _ => success (dec 1 10) 512 16) in
  let r := fst (Run invalid_amd64 setup client (inOrder setup client) 3000000000) in
  1 <= SpeedMeasurement.Concurrency setup ∧
  SpeedResult.SuccessfulRequests r = -2147483648 ∧
  SpeedResult.FailedRequests r = 0 ∧
  SpeedResult.SuccessfulRequests r + SpeedResult.FailedRequests r
    ≠ SpeedMeasurement.Concurrency setup.
Proof.
  intros setup client r.
  destruct (all_succeed_counters invalid_amd64 setup client 3000000000) as [HS HF].
  { intros i. reflexivity. }
  subst r. rewrite HS, HF. vm_compute. repeat split; discriminate.
Qed.

Lemma Run_counts_all_requests_witness :
  let setup := setupOf (dec 50 1) 3 in
  let client := clientOf (fun i => if i =? 1 then failure else success (dec 1 10) 512 16) in
  let r := fst (Run invalid_amd64 setup client (inOrder setup client) 3000000000) in
  SpeedResult.SuccessfulRequests r + SpeedResult.FailedRequests r = 3 ∧
  SpeedResult.SuccessRate r = div (of_int (SpeedResult.SuccessfulRequests r)) (of_int 3).
Proof.
  intros setup client r.
  destruct (Run_counts_all_requests invalid_amd64 setup client (inOrder setup client)
              3000000000) as (Hsum & Hrate & _).
  - constructor; reflexivity.
  - split.
    + apply Hsum. vm_compute. split; discriminate.
    + apply Hrate. vm_compute. discriminate.
Defined.

Lemma Run_returns_nil_error_witness :
  let setup := setupOf (dec 50 1) 2 in
  let client := clientOf (fun _ => failure) in
  let r := Run invalid_amd64 setup client (inOrder setup client) 3000000000 in
  snd r = None ∧ SpeedResult.FailedRequests (fst r) = 2.
Proof.
  intros setup client r.
  destruct (Run_returns_nil_error invalid_amd64 setup client (inOrder setup client)
              3000000000) as (Hnil & Hfail & _).
  - constructor; reflexivity.
  - split; [exact Hnil | exact Hfail].
Defined.

(** ** The throughput figures *)

Lemma wrap64_range z : Int.MinInt64 <= Int.wrap64 z <= Int.MaxInt64.
Proof.
  unfold Int.wrap64, Int.wrap, Int.MinInt64, Int.MaxInt64.
  pose proof (Z.mod_pos_bound (z + 2 ^ (64 - 1)) (2 ^ 64) ltac:(lia)). lia.
Qed.

Lemma totalCompletion_range setup client :
  Int.MinInt64 <= totalCompletion setup client <= Int.MaxInt64.
Proof. apply wrap64_range. Qed.

Lemma totalPrompt_range setup client :
  Int.MinInt64 <= totalPrompt setup client <= Int.MaxInt64.
Proof. apply wrap64_range. Qed.

(** A number below zero is a number with the sign bit set, and not a zero. *)
Lemma ltb_zero_negative d : ltb d zero = true -> has_sign true d ∧ is_zero d = false.
Proof. by destruct d as [[]|[]| |[] m e]. Qed.

(** The two-decimal rounding of a positive token count divided by a negative
    denominator has the sign bit set. *)
Lemma negative_throughput tokens d :
  0 < tokens <= Int.MaxInt64 -> ltb d zero = true ->
  has_sign true (roundToTwoDecimals (div (of_int tokens) d)).
Proof.
  intros Ht Hd. apply ltb_zero_negative in Hd as [Hs Hz].
  apply roundToTwoDecimals_sign.
  pose proof (of_int_int64 tokens) as Hof. unfold Int.MinInt64 in Hof.
  destruct tokens as [|p|p]; try lia.
  destruct Hof as (m & e & ->); [lia|].
  by apply (div_sign false true).
Qed.

(** C5: for every run the generation speed is the count of completion
    tokens divided by the duration in seconds less the baseline latency in
    seconds, and the total throughput is the sum of the two token counts
    divided by the same denominator, each presented with two decimals; the
    token counts are those of the successful requests. With 1000 completion
    tokens, a duration of 10 s and a baseline latency of 0 the generation
    speed is exactly 100. *)
Theorem throughput_formulas invalid setup client sched duration :
  valid_schedule setup client sched ->
  let r := fst (Run invalid setup client sched duration) in
  let denominator :=
    sub (time.Seconds duration) (div (SpeedMeasurement.Latency setup) (of_int 1000)) in
  SpeedResult.TotalCompletionTokens r = totalCompletion setup client ∧
  SpeedResult.TotalPromptTokens r = totalPrompt setup client ∧
  SpeedResult.GenerationSpeed r =
    roundToTwoDecimals (div (of_int (totalCompletion setup client)) denominator) ∧
  SpeedResult.TotalThroughput r =
    roundToTwoDecimals
      (div (of_int (Int.wrap64 (totalPrompt setup client + totalCompletion setup client)))
         denominator) ∧
  (totalCompletion setup client = 1000 -> duration = 10 * time.Second ->
   SpeedMeasurement.Latency setup = zero ->
   SpeedResult.GenerationSpeed r = of_int 100).
Proof.
  intros Hv r denominator. subst r denominator.
  rewrite (Run_reduce _ _ _ _ _ Hv). cbn [fst]. unfold reduce.
  cbn [SpeedResult.TotalCompletionTokens SpeedResult.TotalPromptTokens
       SpeedResult.GenerationSpeed SpeedResult.TotalThroughput].
  repeat split. intros -> -> ->. reflexivity.
Qed.

Lemma throughput_formulas_witness :
  let setup := setupOf zero 2 in
  let client := clientOf (fun _ => success (dec 1 10) 500 16) in
  let r := fst (Run invalid_amd64 setup client (inOrder setup client) 10000000000) in
  SpeedResult.GenerationSpeed r = of_int 100.
Proof.
  intros setup client r.
  destruct (throughput_formulas invalid_amd64 setup client (inOrder setup client)
              10000000000) as (_ & _ & _ & _ & H).
  - constructor; reflexivity.
  - apply H; reflexivity.
Defined.

(** ** Degenerate denominators *)

(** C1, as the code has it: whatever the samples and the baseline latency,
    [Run] returns its result with a nil error, no arithmetic faulting. Where
    the duration less the baseline latency is a zero, the generation speed
    and the total throughput are not finite (a NaN or an infinity); where it
    is negative no sentinel is put in its place: for a positive token count
    the field is the two-decimal rounding of the quotient, a value with the
    sign bit set. The prompt throughput follows the maximal TTFT less the
    baseline latency in the same way as long as the maximal TTFT, as the
    loop over the TTFT values leaves it, is a value that the rounding to two
    decimals does not change. *)
Theorem degenerate_denominators invalid setup client sched duration :
  let r := Run invalid setup client sched duration in
  let latency := div (SpeedMeasurement.Latency setup) (of_int 1000) in
  let byDuration := sub (time.Seconds duration) latency in
  let ttftValues :=
    Range (rangeTtfts sched) (ttfts (fanout setup client (completion sched))) in
  let maxTtft := sMaxTtft (ttftStats invalid ttftValues) in
  let byTtft := sub maxTtft latency in
  snd r = None ∧
  (is_zero byDuration = true ->
     is_finite (SpeedResult.GenerationSpeed (fst r)) = false ∧
     is_finite (SpeedResult.TotalThroughput (fst r)) = false) ∧
  (ltb byDuration zero = true -> 0 < SpeedResult.TotalCompletionTokens (fst r) ->
     has_sign true (SpeedResult.GenerationSpeed (fst r))) ∧
  (ltb byDuration zero = true ->
     0 < Int.wrap64 (SpeedResult.TotalPromptTokens (fst r)
                     + SpeedResult.TotalCompletionTokens (fst r)) ->
     has_sign true (SpeedResult.TotalThroughput (fst r))) ∧
  SpeedResult.MaxTtft (fst r) = roundToTwoDecimals maxTtft ∧
  (roundToTwoDecimals maxTtft = maxTtft ->
     (is_zero byTtft = true ->
        is_finite (SpeedResult.PromptThroughput (fst r)) = false) ∧
     (ltb byTtft zero = true -> 0 < SpeedResult.TotalPromptTokens (fst r) ->
        has_sign true (SpeedResult.PromptThroughput (fst r)))).
Proof.
  intros r latency byDuration ttftValues maxTtft byTtft.
  subst r byDuration byTtft maxTtft ttftValues latency.
  unfold Run. cbn [fst snd]. unfold reduce.
  cbn [SpeedResult.GenerationSpeed SpeedResult.TotalThroughput
       SpeedResult.PromptThroughput SpeedResult.MaxTtft
       SpeedResult.TotalCompletionTokens SpeedResult.TotalPromptTokens].
  rewrite !sumInts_sumZ.
  split; [done|]. split; [|split; [|split; [|split; [done|]]]].
  - intros Hz. split; apply roundToTwoDecimals_not_finite; by apply div_by_zero.
  - intros Hneg Hpos. apply negative_throughput; [|done].
    split; [done | apply wrap64_range].
  - intros Hneg Hpos. apply negative_throughput; [|done].
    split; [done | apply wrap64_range].
  - intros ->. split.
    + intros Hz. apply roundToTwoDecimals_not_finite. by apply div_by_zero.
    + intros Hneg Hpos. apply negative_throughput; [|done].
      split; [done | apply wrap64_range].
Qed.

(** C1, as stated, fails where the baseline latency exceeds the duration: one
    request bringing 1000 completion tokens in a run of 1 s, with a baseline
    latency of 2000 ms, has the denominator -1 and the generation speed
    -1000, a finite negative number and no sentinel. *)
Lemma negative_generation_speed :
  let setup := setupOf (of_int 2000) 1 in
  let client := clientOf (fun _ => success (dec 5 10) 1000 10) in
  let r := fst (Run invalid_amd64 setup client (inOrder setup client) 1000000000) in
  let denominator :=
    sub (time.Seconds 1000000000) (div (SpeedMeasurement.Latency setup) (of_int 1000)) in
  leb denominator zero = true ∧
  SpeedResult.GenerationSpeed r = of_int (-1000) ∧
  sentinel (SpeedResult.GenerationSpeed r) = false.
Proof. vm_compute. done. Qed.

Lemma degenerate_denominators_witness :
  let behind := setupOf (of_int 2000) 1 in
  let level := setupOf (of_int 500) 1 in
  let client := clientOf (fun _ => success (dec 5 10) 1000 10) in
  let r := fst (Run invalid_amd64 behind client (inOrder behind client) 1000000000) in
  let r0 := fst (Run invalid_amd64 level client (inOrder level client) 1000000000) in
  has_sign true (SpeedResult.GenerationSpeed r) ∧
  has_sign true (SpeedResult.TotalThroughput r) ∧
  has_sign true (SpeedResult.PromptThroughput r) ∧
  is_finite (SpeedResult.PromptThroughput r0) = false.
Proof.
  intros behind level client r r0.
  destruct (degenerate_denominators invalid_amd64 behind client (inOrder behind client)
              1000000000) as (_ & _ & Hgen & Htotal & _ & Hprompt).
  destruct (degenerate_denominators invalid_amd64 level client (inOrder level client)
              1000000000) as (_ & _ & _ & _ & _ & Hprompt0).
  destruct Hprompt as [_ Hneg]; [vm_compute; reflexivity|].
  destruct Hprompt0 as [Hzero _]; [vm_compute; reflexivity|].
  split; [apply Hgen; vm_compute; reflexivity|].
  split; [apply Htotal; vm_compute; reflexivity|].
  split; [apply Hneg; vm_compute; reflexivity|].
  apply Hzero. vm_compute. reflexivity.
Defined.

(** Why the prompt throughput asks for a maximal TTFT that the rounding does
    not change: [Run] divides by the maximum already rounded to two decimals.
    One request with 100 prompt tokens and a TTFT of 0.014 s, against a
    baseline latency of 14 ms, has a maximal TTFT less the latency of exactly
    zero and a prompt throughput of -25000; with a TTFT of 0.016 s against
    17 ms the difference is negative and the prompt throughput is
    33333.33. *)
Example prompt_throughput_at_unrounded_maximum :
  let run (ttft : float64) (latency : Z) :=
    let setup := setupOf (of_int latency) 1 in
    let client := clientOf (fun _ => success ttft 50 100) in
    fst (Run invalid_amd64 setup client (inOrder setup client) 2000000000) in
  is_zero (sub (dec 14 1000) (div (of_int 14) (of_int 1000))) = true ∧
  SpeedResult.PromptThroughput (run (dec 14 1000) 14) = of_int (-25000) ∧
  ltb (sub (dec 16 1000) (div (of_int 17) (of_int 1000))) zero = true ∧
  SpeedResult.PromptThroughput (run (dec 16 1000) 17) = dec 3333333 100.
Proof. vm_compute. done. Qed.

(** ** No request succeeds *)

Lemma of_int_0 : of_int 0 = zero.
Proof. reflexivity. Qed.

Lemma div_zero_of_int_pos n : 0 < n -> div zero (of_int n) = zero.
Proof.
  intros Hn. by destruct (of_int_pos n Hn) as [->|(m & e & ->)].
Qed.

Lemma div_zero_zero d : is_zero d = true -> div zero d = nan.
Proof. by destruct d. Qed.

(** C2, as the code has it: when no request succeeds the count of successes,
    the success rate, the seven TTFT statistics and the two average-token
    fields are zero; each throughput figure is a zero, with the sign of its
    latency-corrected denominator, when that denominator is a number other
    than zero, and a NaN when the denominator is a zero, as it is for the
    prompt throughput under a zero baseline latency. *)
Theorem all_requests_fail invalid setup client sched duration :
  valid_schedule setup client sched ->
  (forall i, i ∈ launched setup -> succeeded setup client i = false) ->
  let r := fst (Run invalid setup client sched duration) in
  let latency := div (SpeedMeasurement.Latency setup) (of_int 1000) in
  let byDuration := sub (time.Seconds duration) latency in
  let byTtft := sub zero latency in
  SpeedResult.SuccessfulRequests r = 0 ∧
  SpeedResult.SuccessRate r = zero ∧
  (SpeedResult.MaxTtft r = zero ∧ SpeedResult.MinTtft r = zero ∧
   SpeedResult.AvgTtft r = zero ∧ SpeedResult.MedianTtft r = zero ∧
   SpeedResult.P95Ttft r = zero ∧ SpeedResult.P99Ttft r = zero ∧
   SpeedResult.StdDevTtft r = zero) ∧
  (SpeedResult.AvgPromptTokens r = zero ∧ SpeedResult.AvgCompletionTokens r = zero) ∧
  (is_nan byDuration = false -> is_zero byDuration = false ->
     SpeedResult.GenerationSpeed r = S754_zero (signbit byDuration) ∧
     SpeedResult.TotalThroughput r = S754_zero (signbit byDuration)) ∧
  (is_nan byTtft = false -> is_zero byTtft = false ->
     SpeedResult.PromptThroughput r = S754_zero (signbit byTtft)) ∧
  (is_zero byDuration = true ->
     SpeedResult.GenerationSpeed r = nan ∧ SpeedResult.TotalThroughput r = nan) ∧
  (is_zero byTtft = true -> SpeedResult.PromptThroughput r = nan).
Proof.
  intros Hv Hfail r latency byDuration byTtft.
  subst r. rewrite (Run_reduce _ _ _ _ _ Hv). cbn [fst].
  destruct (all_fail_successes setup client Hfail) as [Hs Hf].
  unfold countSucceeded, countFailed, totalPrompt, totalCompletion, ttftSamples.
  destruct Hv as [_ _ _ Ht]. rewrite Hs in Ht. apply Permutation_nil_r in Ht.
  rewrite Hs, Ht. cbn [length fmap list_fmap sumZ fold_right].
  change (Int.wrap32 (Z.of_nat 0)) with 0. change (Int.wrap64 0) with 0.
  unfold reduce. cbn [ttftStats sMaxTtft sMinTtft sAvgTtft sMedianTtft sP95Ttft
                      sP99Ttft sStdDevTtft].
  cbn [SpeedResult.SuccessfulRequests SpeedResult.SuccessRate SpeedResult.MaxTtft
       SpeedResult.MinTtft SpeedResult.AvgTtft SpeedResult.MedianTtft
       SpeedResult.P95Ttft SpeedResult.P99Ttft SpeedResult.StdDevTtft
       SpeedResult.AvgPromptTokens SpeedResult.AvgCompletionTokens
       SpeedResult.GenerationSpeed SpeedResult.TotalThroughput
       SpeedResult.PromptThroughput].
  change (0 <? 0) with false. cbv iota.
  change (Int.wrap64 (0 + 0)) with 0. rewrite of_int_0.
  change (roundToTwoDecimals zero) with zero.
  fold latency. fold byDuration. fold byTtft.
  split; [done|]. split.
  { destruct (Z.ltb_spec 0 (SpeedMeasurement.Concurrency setup)); [|done].
    by apply div_zero_of_int_pos. }
  split; [done|]. split; [done|].
  split; [|split; [|split]].
  - intros Hn Hz. rewrite div_zero_l by done. by rewrite roundToTwoDecimals_zero.
  - intros Hn Hz. rewrite div_zero_l by done. by rewrite roundToTwoDecimals_zero.
  - intros Hz. by rewrite div_zero_zero.
  - intros Hz. by rewrite div_zero_zero.
Qed.

(** C2, as stated, fails under a zero baseline latency: the prompt
    throughput of a run in which both requests fail is 0/0, a NaN. *)
Lemma all_fail_prompt_throughput_nan :
  let setup := setupOf zero 2 in
  let client := clientOf (fun _ => failure) in
  let r := fst (Run invalid_amd64 setup client (inOrder setup client) 2000000000) in
  (forall i, succeeded setup client i = false) ∧
  SpeedResult.SuccessfulRequests r = 0 ∧
  SpeedResult.PromptThroughput r = nan.
Proof. split; [done | by vm_compute]. Qed.

Lemma all_requests_fail_witness :
  let setup := setupOf (of_int 50) 2 in
  let client := clientOf (fun _ => failure) in
  let r := fst (Run invalid_amd64 setup client (inOrder setup client) 2000000000) in
  SpeedResult.SuccessRate r = zero ∧
  SpeedResult.GenerationSpeed r = S754_zero false ∧
  SpeedResult.PromptThroughput r = S754_zero true.
Proof.
  intros setup client r.
  destruct (all_requests_fail invalid_amd64 setup client (inOrder setup client)
              2000000000) as (_ & Hrate & _ & _ & Hgen & Hprompt & _).
  - constructor; reflexivity.
  - intros i _. reflexivity.
  - split; [exact Hrate|]. split.
    + apply Hgen; vm_compute; reflexivity.
    + apply Hprompt; vm_compute; reflexivity.
Defined.

(** ** Rounded intermediate values *)

Lemma sub_diag s m e : sub (S754_finite s m e) (S754_finite s m e) = zero.
Proof.
  unfold sub, SFsub. rewrite Z.min_id. unfold shl_align. rewrite Z.sub_diag.
  reflexivity.
Qed.

Lemma sum_squares_zero x (values : list float64) :
  is_finite x = true -> Forall (fun v => v = x) values ->
  fold_left (fun sum v => add sum (Pow2 (sub v x))) values zero = zero.
Proof.
  intros Hx Hall. induction Hall as [|v values -> _ IH]; [done|].
  cbn [fold_left]. rewrite <- IH at 2. f_equal.
  destruct x as [[]| | |s m e]; try done. by rewrite sub_diag.
Qed.

(** [calculateStdDev] itself is the population standard deviation around
    the mean it is given: for equal finite values and that value as the mean,
    it is zero. *)
Lemma calculateStdDev_identical x (values : list float64) :
  is_finite x = true -> Forall (fun v => v = x) values ->
  calculateStdDev values x = zero.
Proof.
  intros Hx Hall. unfold calculateStdDev. destruct values as [|v values]; [done|].
  rewrite sum_squares_zero by done.
  rewrite div_zero_of_int_pos; [done|]. cbn [length]. lia.
Qed.

(** What [Run] reports is the deviation around the mean already rounded to
    two decimals, and the prompt throughput over the maximum already
    rounded. *)
Lemma reduce_uses_rounded invalid setup S F P C (first : float64) rest duration :
  let r := reduce invalid setup S F P C (first :: rest) duration in
  SpeedResult.StdDevTtft r =
    roundToTwoDecimals (calculateStdDev (first :: rest) (SpeedResult.AvgTtft r)) ∧
  SpeedResult.PromptThroughput r =
    roundToTwoDecimals
      (div (of_int P)
         (sub (SpeedResult.MaxTtft r) (div (SpeedMeasurement.Latency setup) (of_int 1000)))).
Proof.
  intros r. subst r. unfold reduce, ttftStats.
  destruct (ttftLoop (first :: rest) first) as [[sumTtft MaxTtft] MinTtft].
  done.
Qed.

(** C3: one request with a TTFT of 0.125 s and 100 prompt tokens, no baseline
    latency. The mean 0.125 is rounded to 0.13 before the deviation is taken
    around it, so that the reported deviation is 0.01 where the deviation
    around the full-precision mean is 0; the maximum 0.125 is rounded to 0.13
    before the prompt throughput is divided by it, so that 769.23 is reported
    where the full-precision maximum gives 800. *)
Theorem rounded_mean_and_maximum_are_reused :
  let setup := setupOf zero 1 in
  let client := clientOf (fun _ => success (dec 125 1000) 50 100) in
  let sched := inOrder setup client in
  let r := fst (Run invalid_amd64 setup client sched 2000000000) in
  let samples := ttftSamples setup client sched in
  let mean := div (fold_left add samples zero) (of_int (Z.of_nat (length samples))) in
  samples = [dec 125 1000] ∧ mean = dec 125 1000 ∧
  SpeedResult.StdDevTtft r = dec 1 100 ∧
  roundToTwoDecimals (calculateStdDev samples mean) = zero ∧
  SpeedResult.PromptThroughput r = dec 76923 100 ∧
  roundToTwoDecimals (div (of_int 100) (sub (dec 125 1000) (div zero (of_int 1000))))
    = of_int 800.
Proof. vm_compute. done. Qed.

(** C4: two requests with the TTFTs 0.014 s and 0.012 s and 60 + 40 prompt
    tokens, no baseline latency. The slowest TTFT is 0.014 s, which gives
    7142.86 tokens per second; [Run] divides by its two-decimal rounding
    0.01 and reports 10000. *)
Theorem prompt_throughput_over_rounded_maximum :
  let setup := setupOf zero 2 in
  let client :=
    clientOf (fun i => if i =? 0 then success (dec 14 1000) 50 60
                       else success (dec 12 1000) 50 40) in
  let r := fst (Run invalid_amd64 setup client (inOrder setup client) 2000000000) in
  SpeedResult.TotalPromptTokens r = 100 ∧
  SpeedResult.MaxTtft r = dec 1 100 ∧
  SpeedResult.PromptThroughput r = of_int 10000 ∧
  roundToTwoDecimals (div (of_int 100) (sub (dec 14 1000) (div zero (of_int 1000))))
    = dec 714286 100.
Proof. vm_compute. done. Qed.

(** C7: three requests with the same TTFT of 0.125 s. The deviation around
    their mean 0.125 is 0, and so [calculateStdDev] finds it when given that
    mean; [Run] gives it the rounded mean 0.13 and reports 0.01. *)
Theorem stddev_of_identical_values :
  let setup := setupOf zero 3 in
  let client := clientOf (fun _ => success (dec 125 1000) 50 60) in
  let sched := inOrder setup client in
  let r := fst (Run invalid_amd64 setup client sched 2000000000) in
  ttftSamples setup client sched = [dec 125 1000; dec 125 1000; dec 125 1000] ∧
  calculateStdDev (ttftSamples setup client sched) (dec 125 1000) = zero ∧
  SpeedResult.AvgTtft r = dec 13 100 ∧
  SpeedResult.StdDevTtft r = dec 1 100.
Proof. vm_compute. done. Qed.


Section MainFacts.

Variables (invalid : float64 -> Z) (fields : string -> option (list Z)).

Lemma ParseConcurrencyLevels_positive concurrencyStr levels :
  cmd.ParseConcurrencyLevels fields concurrencyStr = inl levels ->
  forall concurrency, concurrency ∈ levels -> 1 <= concurrency.
Proof.
  unfold cmd.ParseConcurrencyLevels.
  destruct (fields concurrencyStr) as [parsed|]; [|done].
  destruct (forallb _ parsed) eqn:Hall; [|done].
  intros [= <-] concurrency Hin.
  rewrite forallb_forall in Hall. apply list_elem_of_In in Hin.
  specialize (Hall _ Hin). lia.
Qed.

Lemma ParseConcurrencyLevels_rejects concurrencyStr levels concurrency :
  fields concurrencyStr = Some levels -> concurrency ∈ levels -> concurrency <= 0 ->
  exists e, cmd.ParseConcurrencyLevels fields concurrencyStr = inr e.
Proof.
  intros Hf Hin Hle. unfold cmd.ParseConcurrencyLevels. rewrite Hf.
  destruct (forallb _ levels) eqn:Hall; [|eauto].
  rewrite forallb_forall in Hall. apply list_elem_of_In in Hin.
  specialize (Hall _ Hin). lia.
Qed.

Lemma measureLevels_runs benchmark world latency levels :
  forall setup,
    setup ∈ (cmd.measureLevels invalid benchmark world latency levels).1.1 ->
    SpeedMeasurement.Concurrency setup ∈ levels.
Proof.
  induction levels as [|concurrency levels IH]; intros setup; cbn [cmd.measureLevels].
  - intros Hin. by apply elem_of_nil in Hin.
  - unfold cmd.measureSpeed.
    destruct (Run _ _ _ _ _) as [result [e|]].
    + cbn. intros Hin. apply list_elem_of_singleton in Hin as ->. apply list_elem_of_here.
    + destruct (cmd.measureLevels _ _ _ _ _) as [[setups results] e]. cbn in *.
      intros [->|Hin]%elem_of_cons; [apply list_elem_of_here|].
      apply list_elem_of_further. by apply IH.
Qed.

End MainFacts.

(** C9: a configuration with a concurrency level that is zero or negative
    is rejected when the levels are parsed: [main] ends in [log.Fatalf]
    without [Run] having been called, so that no fanout is launched; and
    whatever the flags, every configuration [Run] is called on has a
    concurrency of at least 1: a level that is not valid never reaches the
    statistics. *)
Theorem invalid_concurrency_is_rejected invalid fields flags world :
  (forall levels concurrency,
     fields (cmd.concurrencyStr flags) = Some levels ->
     concurrency ∈ levels -> concurrency <= 0 ->
     cmd.main invalid fields flags world
     = cmd.mkTrace [] [] (cmd.Fatal "Invalid concurrency levels")) ∧
  (forall setup,
     setup ∈ cmd.runs (cmd.main invalid fields flags world) ->
     1 <= SpeedMeasurement.Concurrency setup).
Proof.
  split.
  - intros levels concurrency Hf Hin Hle.
    destruct (ParseConcurrencyLevels_rejects fields _ _ _ Hf Hin Hle) as [e He].
    unfold cmd.main. by rewrite He.
  - intros setup. unfold cmd.main.
    destruct (cmd.ParseConcurrencyLevels fields (cmd.concurrencyStr flags))
      as [levels|e] eqn:Hparse; [|by intros ?%elem_of_nil].
    pose proof (ParseConcurrencyLevels_positive fields _ _ Hparse) as Hpos.
    destruct (String.eqb (cmd.baseURL flags) ""); [by intros ?%elem_of_nil|].
    destruct (if String.eqb (cmd.model flags) "" then _ else _) as [modelName|];
      [|by intros ?%elem_of_nil].
    destruct (cmd.promptTokensProbe world) as [promptTokens|];
      [|by intros ?%elem_of_nil].
    set (benchmark := cmd.mkBenchmark _ _ _ _ _ _ _ _ _ _).
    assert (forall latency,
              setup ∈ (cmd.measureLevels invalid benchmark world latency levels).1.1 ->
              1 <= SpeedMeasurement.Concurrency setup) as Hlevels.
    { intros latency Hin. apply Hpos. by eapply measureLevels_runs. }
    destruct (String.eqb (cmd.format flags) ""); unfold cmd.runCli, cmd.run;
      (destruct (cmd.measuredLatency world) as [latency|];
       [ specialize (Hlevels latency); cbn [cmd.ConcurrencyLevels benchmark] in *;
         destruct (cmd.measureLevels invalid benchmark world latency levels)
           as [[setups results] [e|]]; cbn in *; exact Hlevels
       | by intros ?%elem_of_nil ]).
Qed.

Lemma invalid_concurrency_is_rejected_witness :
  let flags :=
    cmd.mkFlags "http://localhost:8000/v1" "" "key" "model" "Hello" 0 "4,0,8" 512 "" in
  let world :=
    cmd.mkWorld (clientOf (fun _ => failure)) (inl "model") (inl 2) (inl (of_int 50))
      (fun _ => mkSchedule [] [] [] []) (fun _ => 1000000000) in
  cmd.main invalid_amd64 (fun _ => Some [4; 0; 8]) flags world
  = cmd.mkTrace [] [] (cmd.Fatal "Invalid concurrency levels").
Proof.
  intros flags world.
  destruct (invalid_concurrency_is_rejected invalid_amd64 (fun _ => Some [4; 0; 8])
              flags world) as [Hreject _].
  apply (Hreject [4; 0; 8] 0).
  - reflexivity.
  - apply list_elem_of_further, list_elem_of_here.
  - lia.
Defined.

(** ** The order of the sort *)

Section OrderFacts.

Lemma less_rank x y : sort.less x y = true <-> rank_lt (rank x) (rank y).
Proof.
  unfold sort.less, ltb, SFltb, rank_lt.
  destruct x as [[]|[]| |[] m1 e1], y as [[]|[]| |[] m2 e2]; cbn;
    try (split; [discriminate | lia]);
    try (split; [intros _; lia | reflexivity]).
  - destruct (Z.compare_spec e1 e2) as [->| |]; cbn;
      try (split; [discriminate | lia]); try (split; [intros _; lia | reflexivity]).
    change (Pos.compare_cont Eq m1 m2) with (Pos.compare m1 m2).
    destruct (Pos.compare_spec m1 m2); cbn;
      try (split; [discriminate | lia]); try (split; [intros _; lia | reflexivity]).
  - destruct (Z.compare_spec e1 e2) as [->| |]; cbn;
      try (split; [discriminate | lia]); try (split; [intros _; lia | reflexivity]).
    change (Pos.compare_cont Eq m1 m2) with (Pos.compare m1 m2).
    destruct (Pos.compare_spec m1 m2); cbn;
      try (split; [discriminate | lia]); try (split; [intros _; lia | reflexivity]).
Qed.

Lemma less_false_rank x y : sort.less x y = false <-> ¬ rank_lt (rank x) (rank y).
Proof.
  rewrite <- less_rank. destruct (sort.less x y); split; try done.
Qed.

Lemma less_irrefl x : sort.less x x = false.
Proof. apply less_false_rank. unfold rank_lt. lia. Qed.

Lemma less_asym x y : sort.less x y = true -> sort.less y x = false.
Proof. rewrite less_rank, less_false_rank. unfold rank_lt. lia. Qed.

Lemma not_less_trans x y z :
  sort.less y x = false -> sort.less z y = false -> sort.less z x = false.
Proof. rewrite !less_false_rank. unfold rank_lt. lia. Qed.

(** Among numbers, not being less is being greater or equal. *)
Lemma not_less_leb x y :
  is_nan x = false -> is_nan y = false -> sort.less x y = false -> leb y x = true.
Proof.
  unfold sort.less, ltb, leb, SFltb, SFleb.
  destruct x as [[]|[]| |[] m1 e1], y as [[]|[]| |[] m2 e2]; cbn; try done.
  - intros _ _. rewrite (Z.compare_antisym e1 e2).
    destruct (Z.compare e1 e2); cbn; try done.
    change (Pos.compare_cont Eq m1 m2) with (Pos.compare m1 m2).
    change (Pos.compare_cont Eq m2 m1) with (Pos.compare m2 m1).
    rewrite (Pos.compare_antisym m1 m2). by destruct (Pos.compare m1 m2).
  - intros _ _. rewrite (Z.compare_antisym e1 e2).
    destruct (Z.compare e1 e2); cbn; try done.
    change (Pos.compare_cont Eq m1 m2) with (Pos.compare m1 m2).
    change (Pos.compare_cont Eq m2 m1) with (Pos.compare m2 m1).
    rewrite (Pos.compare_antisym m1 m2). by destruct (Pos.compare m1 m2).
Qed.

Lemma insert_Permutation x l : sort.insert x l ≡ₚ x :: l.
Proof.
  induction l as [|h t IH]; cbn; [done|].
  destruct (sort.less x h); [done|]. rewrite IH. apply Permutation_swap.
Qed.

Lemma insert_ascending x l : ascending l -> ascending (sort.insert x l).
Proof.
  unfold ascending. induction 1 as [|h t Hsorted IH Hh]; cbn.
  - repeat constructor.
  - destruct (sort.less x h) eqn:Hxh.
    + constructor; [by constructor|].
      apply less_asym in Hxh. constructor; [done|].
      eapply Forall_impl; [exact Hh|]. cbn. intros b Hb.
      by apply (not_less_trans _ h).
    + constructor; [done|].
      rewrite insert_Permutation. by constructor.
Qed.

Lemma Float64s_from sorted l :
  fold_left (fun sorted x => sort.insert x sorted) l sorted ≡ₚ l ++ sorted ∧
  (ascending sorted ->
   ascending (fold_left (fun sorted x => sort.insert x sorted) l sorted)).
Proof.
  revert sorted. induction l as [|x l IH]; intros sorted; cbn [fold_left].
  - done.
  - destruct (IH (sort.insert x sorted)) as [Hp Hs]. split.
    + rewrite Hp, insert_Permutation. cbn. by rewrite Permutation_middle.
    + intros Ha. by apply Hs, insert_ascending.
Qed.

(** [sort.Float64s] gives the same values, in increasing order. *)
Lemma Float64s_Permutation l : sort.Float64s l ≡ₚ l.
Proof.
  unfold sort.Float64s. destruct (Float64s_from [] l) as [Hp _].
  by rewrite Hp, app_nil_r.
Qed.

Lemma Float64s_ascending l : ascending (sort.Float64s l).
Proof.
  unfold sort.Float64s. destruct (Float64s_from [] l) as [_ Hs].
  apply Hs. constructor.
Qed.

(** The last value of an increasing list is less than none of them. *)
Lemma ascending_last l z :
  ascending l -> last l = Some z -> forall v, v ∈ l -> sort.less z v = false.
Proof.
  unfold ascending. induction 1 as [|h t Hsorted IH Hh]; intros Hlast v Hv.
  - done.
  - destruct t as [|h' t].
    + cbn in Hlast. injection Hlast as <-.
      apply list_elem_of_singleton in Hv as ->. apply less_irrefl.
    + change (last (h :: h' :: t)) with (last (h' :: t)) in Hlast.
      apply elem_of_cons in Hv as [->|Hv]; [|by apply IH].
      rewrite Forall_forall in Hh. apply Hh.
      apply last_Some in Hlast as [l' ->]. set_solver.
Qed.

End OrderFacts.

(** ** Exact conversions *)

Section ExactFacts.

Abbreviation bra := (binary_round_aux prec emax).

Lemma shr_1_double m :
  0 <= m -> shr_1 (Build_shr_record (2 * m) false false) = Build_shr_record m false false.
Proof. intros Hm. destruct m; [done|done|lia]. Qed.

(** Shifting out [p] zero bits loses nothing. *)
Lemma iter_shr_1_exact p : forall m,
  0 <= m ->
  SpecFloat.iter_pos shr_1 p (Build_shr_record (m * 2 ^ Zpos p) false false)
  = Build_shr_record m false false.
Proof.
  induction p as [p IH|p IH|]; intros m Hm; cbn [SpecFloat.iter_pos].
  - assert (0 < 2 ^ Zpos p) by (apply Z.pow_pos_nonneg; lia).
    rewrite pow2_xI.
    replace (m * (2 * (2 ^ Z.pos p * 2 ^ Z.pos p)))
      with (2 * (m * 2 ^ Z.pos p * 2 ^ Z.pos p)) by lia.
    rewrite shr_1_double by nia. rewrite IH by nia. by apply IH.
  - assert (0 < 2 ^ Zpos p) by (apply Z.pow_pos_nonneg; lia).
    rewrite pow2_xO, Z.mul_assoc. rewrite IH by nia. by apply IH.
  - rewrite Z.pow_1_r, Z.mul_comm. by apply shr_1_double.
Qed.

(** A mantissa of at most 53 digits is not shifted. *)
Lemma shr_fexp_short m e l :
  Zdigits2 (Zpos m) <= 53 -> -1074 <= e ->
  shr_fexp prec emax (Zpos m) e l = (shr_record_of_loc (Zpos m) l, e).
Proof.
  intros Hd He. unfold shr_fexp, shr, fexp, emin, prec, emax.
  destruct (Z.max _ _ - e) eqn:Hn; [done|lia|done].
Qed.

(** A mantissa of 53 digits whose exponent is in range is a float64 as it
    stands. *)
Lemma binary_round_aux_exact s m e :
  Zdigits2 (Zpos m) = 53 -> -1074 <= e <= 971 ->
  bra s (Zpos m) e loc_Exact = S754_finite s m e.
Proof.
  intros Hd He. unfold binary_round_aux.
  rewrite shr_fexp_short by lia. cbn [shr_record_of_loc shr_m loc_of_shr_record
                                       round_nearest_even].
  rewrite shr_fexp_short by lia. cbn [shr_record_of_loc shr_m].
  unfold emax, prec. destruct (Z.leb_spec e (1024 - 53)); [done|lia].
Qed.

(** So is the same mantissa followed by [k] zero bits, [k] exponents
    below. *)
Lemma binary_round_aux_shifted s m q k e :
  Zdigits2 (Zpos m) = 53 -> -1074 <= e <= 971 -> -1074 <= e - Zpos k ->
  Zpos q = Zpos m * 2 ^ Zpos k ->
  bra s (Zpos q) (e - Zpos k) loc_Exact = S754_finite s m e.
Proof.
  intros Hd He Hk Hq. unfold binary_round_aux.
  assert (shr_fexp prec emax (Zpos q) (e - Zpos k) loc_Exact
          = (Build_shr_record (Zpos m) false false, e)) as ->.
  { unfold shr_fexp, shr, fexp, emin, prec, emax.
    assert (Zdigits2 (Zpos q) = 53 + Zpos k) as ->.
    { rewrite Zdigits2_log2, Hq, Z.log2_mul_pow2 by lia.
      rewrite Zdigits2_log2 in Hd. lia. }
    replace (Z.max (53 + Z.pos k + (e - Z.pos k) - 53) (3 - 1024 - 53) - (e - Z.pos k))
      with (Zpos k) by lia.
    cbn [shr_record_of_loc]. rewrite Hq, iter_shr_1_exact by lia.
    f_equal. lia. }
  cbn [shr_m loc_of_shr_record round_nearest_even].
  rewrite shr_fexp_short by lia. cbn [shr_record_of_loc shr_m].
  unfold emax, prec. destruct (Z.leb_spec e (1024 - 53)); [done|lia].
Qed.

(** The integers from 1 below 2^53 convert without rounding: the mantissa
    has 53 digits and is the integer followed by zero bits. *)
Lemma of_int_exact n :
  0 < n < 2 ^ 53 ->
  ∃ m e, of_int n = S754_finite false m e ∧ -52 <= e <= 0 ∧
         Zpos m = n * 2 ^ (- e) ∧ Zdigits2 (Zpos m) = 53.
Proof.
  intros Hn. destruct n as [|p|p]; try lia.
  unfold of_int, binary_normalize, binary_round.
  pose proof (Zdigits2_log2 p) as HD. pose proof (Z.log2_nonneg (Zpos p)).
  assert (Z.log2 (Zpos p) < 53) by (apply Z.log2_lt_pow2; lia).
  change (Z.pos (digits2_pos p)) with (Zdigits2 (Zpos p)).
  unfold shl_align, fexp, emin, prec, emax.
  destruct (Z.max (Zdigits2 (Z.pos p) + 0 - 53) (3 - 1024 - 53) - 0) as [|k|k] eqn:Hk;
    cbv beta iota.
  - exists p, 0. split; [apply binary_round_aux_exact; lia|].
    rewrite Z.pow_0_r. repeat split; lia.
  - lia.
  - exists (Pos.iter xO p k), (- Zpos k).
    assert (Zdigits2 (Z.pos (Pos.iter xO p k)) = 53) as Hd.
    { rewrite Zdigits2_log2, Pos_iter_xO, Z.log2_mul_pow2 by lia. lia. }
    replace (Z.max (Zdigits2 (Z.pos p) + 0 - 53) (3 - 1024 - 53)) with (- Zpos k) by lia.
    split; [apply binary_round_aux_exact; lia|].
    repeat split; try lia. rewrite Pos_iter_xO. f_equal.
Qed.

Lemma of_int_1 : of_int 1 = S754_finite false 4503599627370496 (-52).
Proof. reflexivity. Qed.

(** Multiplying by 1.0 changes nothing in such a number. *)
Lemma mul_one_exact m e :
  Zdigits2 (Zpos m) = 53 -> -52 <= e <= 0 ->
  mul (S754_finite false m e) (of_int 1) = S754_finite false m e.
Proof.
  intros Hd He. rewrite of_int_1. unfold mul, SFmul. cbn [xorb].
  change (e + -52) with (e - Zpos 52).
  apply binary_round_aux_shifted; lia.
Qed.

Lemma shiftr_exact n k : 0 <= k -> Z.shiftr (n * 2 ^ k) k = n.
Proof.
  intros Hk. rewrite Z.shiftr_div_pow2 by done.
  apply Z.div_mul. pose proof (Z.pow_pos_nonneg 2 k). lia.
Qed.

Lemma land_ones_exact n k : 0 <= k -> Z.land (n * 2 ^ k) (Z.ones k) = 0.
Proof. intros Hk. rewrite Z.land_ones by done. apply Z.mod_mul.
  pose proof (Z.pow_pos_nonneg 2 k). lia. Qed.

(** An integer below 2^53, converted, is its own ceiling, and converts back
    to itself. *)
Lemma Ceil_of_int n : 0 < n < 2 ^ 53 -> Ceil (of_int n) = of_int n.
Proof.
  intros Hn. destruct (of_int_exact n Hn) as (m & e & Hof & He & Hm & Hd).
  rewrite Hof. unfold Ceil. destruct (Z.leb_spec 0 e) as [Hle|Hlt]; [reflexivity|].
  rewrite Hm, shiftr_exact, land_ones_exact by lia. cbn [Z.eqb].
  rewrite <- Hof. destruct n; [lia | reflexivity | lia].
Qed.

Lemma to_int_of_int invalid n : 0 < n < 2 ^ 53 -> to_int invalid (of_int n) = n.
Proof.
  intros Hn. destruct (of_int_exact n Hn) as (m & e & Hof & He & Hm & Hd).
  rewrite Hof. unfold to_int.
  assert ((if 0 <=? e then Z.shiftl (Z.pos m) e else Z.shiftr (Z.pos m) (- e)) = n) as ->.
  { destruct (Z.leb_spec 0 e).
    - assert (e = 0) as -> by lia. rewrite Z.shiftl_0_r, Hm. cbn. lia.
    - rewrite Hm. apply shiftr_exact. lia. }
  unfold Int.MinInt64, Int.MaxInt64.
  destruct (Z.leb_spec (- 2 ^ 63) n); [|lia].
  destruct (Z.leb_spec n (2 ^ 63 - 1)); [done|lia].
Qed.

(** For the percentile 1.0 the index is the last one. *)
Lemma percentileIndex_one invalid len :
  0 < len < 2 ^ 53 -> percentileIndex invalid len (of_int 1) = len - 1.
Proof.
  intros Hlen. unfold percentileIndex.
  destruct (of_int_exact len Hlen) as (m & e & Hof & He & Hm & Hd).
  rewrite Hof, mul_one_exact, <- Hof by done.
  rewrite Ceil_of_int, to_int_of_int by done.
  rewrite wrap64_small by (unfold Int.MinInt64, Int.MaxInt64; lia).
  destruct (Z.ltb_spec (len - 1) 0); [lia|].
  destruct (Z.leb_spec len (len - 1)); [lia|done].
Qed.

(** Whatever the percentile, the index is one of the slice. *)
Lemma percentileIndex_range invalid len percentile :
  0 < len -> 0 <= percentileIndex invalid len percentile <= len - 1.
Proof.
  intros Hlen. unfold percentileIndex.
  set (index := Int.wrap64 _).
  destruct (Z.ltb_spec index 0).
  - destruct (Z.leb_spec len 0); lia.
  - destruct (Z.leb_spec len index); lia.
Qed.

End ExactFacts.

(** ** The percentile *)

Section PercentileFacts.

Variable invalid : float64 -> Z.

Lemma length_Float64s l : length (sort.Float64s l) = length l.
Proof. apply Permutation_length, Float64s_Permutation. Qed.

(** What [calculatePercentile] returns is the value of the sorted slice at
    the index. *)
Lemma calculatePercentile_lookup values p :
  values ≠ [] ->
  sort.Float64s values
    !! Z.to_nat (percentileIndex invalid (Z.of_nat (length values)) p)
  = Some (calculatePercentile invalid values p).
Proof.
  intros Hne. unfold calculatePercentile. destruct values as [|v values]; [done|].
  rewrite length_Float64s.
  set (l := v :: values) in *.
  pose proof (percentileIndex_range invalid (Z.of_nat (length l)) p) as Hr.
  destruct (nth_lookup_or_length (sort.Float64s l)
              (Z.to_nat (percentileIndex invalid (Z.of_nat (length l)) p)) zero)
    as [Hl|Hl]; [done|].
  rewrite length_Float64s in Hl. cbn [length l] in *. lia.
Qed.

Lemma percentileIndex_clamp len p :
  0 < len ->
  percentileIndex invalid len p
  = Z.max 0 (Z.min (len - 1)
               (Int.wrap64 (to_int invalid (Ceil (mul (of_int len) p)) - 1))).
Proof.
  intros Hlen. unfold percentileIndex. set (index := Int.wrap64 _).
  destruct (Z.ltb_spec index 0).
  - destruct (Z.leb_spec len 0); lia.
  - destruct (Z.leb_spec len index); lia.
Qed.

Lemma calculatePercentile_one values :
  values ≠ [] -> Z.of_nat (length values) < 2 ^ 53 ->
  last (sort.Float64s values) = Some (calculatePercentile invalid values (of_int 1)).
Proof.
  intros Hne Hlen. rewrite <- (calculatePercentile_lookup values (of_int 1) Hne).
  assert (0 < Z.of_nat (length values)) by (destruct values; [done | cbn [length]; lia]).
  rewrite percentileIndex_one by lia.
  rewrite last_lookup, length_Float64s. f_equal. lia.
Qed.

End PercentileFacts.

(** C6: for a slice that is not empty and any percentile [p],
    [calculatePercentile] sorts the values in increasing order and returns
    the one at the index ceil(len * p) - 1, clamped to [0, len-1], the
    product and the ceiling being those of float64. So, for a slice of fewer
    than 2^53 values, the percentile 1.0 is a maximum of the values: one of
    them, and less than none; a slice of one value gives that value for
    every [p]; and the median of 0.1, 0.2, 0.3, 0.4 is 0.2. *)
Theorem calculatePercentile_nearest_rank invalid :
  (forall values p, values ≠ [] ->
     let sorted := sort.Float64s values in
     let len := Z.of_nat (length values) in
     let index :=
       Z.max 0 (Z.min (len - 1)
                  (Int.wrap64 (to_int invalid (Ceil (mul (of_int len) p)) - 1))) in
     sorted ≡ₚ values ∧ ascending sorted ∧ 0 <= index <= len - 1 ∧
     sorted !! Z.to_nat index = Some (calculatePercentile invalid values p)) ∧
  (forall values, values ≠ [] -> Z.of_nat (length values) < 2 ^ 53 ->
     let top := calculatePercentile invalid values (of_int 1) in
     top ∈ values ∧
     (forall v, v ∈ values -> ltb top v = false) ∧
     (forall v, v ∈ values -> is_nan top = false -> is_nan v = false ->
                leb v top = true)) ∧
  (forall v p, calculatePercentile invalid [v] p = v) ∧
  calculatePercentile invalid [dec 1 10; dec 2 10; dec 3 10; dec 4 10] (dec 5 10)
    = dec 2 10.
Proof.
  split; [|split; [|split]].
  - intros values p Hne sorted len index.
    assert (0 < len) as Hlen by (subst len; destruct values; [done | cbn [length]; lia]).
    split; [apply Float64s_Permutation|]. split; [apply Float64s_ascending|].
    split; [lia|]. subst index.
    rewrite <- (percentileIndex_clamp invalid len p Hlen).
    by apply calculatePercentile_lookup.
  - intros values Hne Hlen top.
    pose proof (calculatePercentile_one invalid values Hne Hlen) as Hlast. fold top in Hlast.
    assert (forall v, v ∈ values -> sort.less top v = false) as Hmax.
    { intros v Hv.
      apply (ascending_last (sort.Float64s values)); [apply Float64s_ascending|done|].
      by rewrite Float64s_Permutation. }
    split; [|split].
    + rewrite <- (Float64s_Permutation values).
      apply last_Some in Hlast as [l' ->]. set_solver.
    + intros v Hv. specialize (Hmax v Hv). unfold sort.less in Hmax.
      by apply orb_false_iff in Hmax as [? _].
    + intros v Hv Htop Hnan. apply not_less_leb; auto.
  - intros v p. unfold calculatePercentile. cbn [sort.Float64s fold_left sort.insert length].
    pose proof (percentileIndex_range invalid (Z.of_nat 1) p ltac:(lia)) as Hr.
    replace (percentileIndex invalid (Z.of_nat 1) p) with 0 by lia. reflexivity.
  - vm_compute. reflexivity.
Qed.

Lemma calculatePercentile_nearest_rank_witness :
  let values := [dec 3 10; dec 1 10; dec 4 10; dec 2 10] in
  sort.Float64s values ≡ₚ values ∧
  sort.Float64s values !! 3%nat
    = Some (calculatePercentile invalid_amd64 values (dec 95 100)) ∧
  calculatePercentile invalid_amd64 values (of_int 1) ∈ values ∧
  ltb (calculatePercentile invalid_amd64 values (of_int 1)) (dec 4 10) = false.
Proof.
  intros values.
  destruct (calculatePercentile_nearest_rank invalid_amd64) as (Hrank & Hmax & _ & _).
  assert (values ≠ []) as Hne by discriminate.
  assert (Z.of_nat (length values) < 2 ^ 53) as Hlen by (vm_compute; reflexivity).
  destruct (Hrank values (dec 95 100) Hne) as (Hperm & _ & _ & Hlookup).
  destruct (Hmax values Hne Hlen) as (Hin & Hlt & _).
  split; [exact Hperm|]. split; [exact Hlookup|].
  split; [exact Hin|]. apply Hlt.
  do 2 apply list_elem_of_further. apply list_elem_of_here.
Defined.

(** The scenario of the specification: four successful requests with the
    TTFTs 0.1, 0.2, 0.3 and 0.4 s, a duration of 2 s, no baseline latency. *)
Example four_samples_scenario :
  let setup := setupOf zero 4 in
  let client := clientOf (fun i => success (dec (i + 1) 10) 100 20) in
  let r := fst (Run invalid_amd64 setup client (inOrder setup client) 2000000000) in
  ttftSamples setup client (inOrder setup client) = [dec 1 10; dec 2 10; dec 3 10; dec 4 10] ∧
  SpeedResult.SuccessfulRequests r = 4 ∧
  SpeedResult.MedianTtft r = dec 2 10 ∧
  SpeedResult.MaxTtft r = dec 4 10 ∧
  SpeedResult.MinTtft r = dec 1 10 ∧
  SpeedResult.GenerationSpeed r = of_int 200.
Proof. vm_compute. done. Qed.

(** ** More on the fanout *)

(** When [wg.Wait] returns, each of the three maps holds, under the index of
    every goroutine whose request succeeded, what that request brought back,
    and holds nothing under any other key: a request that failed leaves no
    TTFT and no token count behind, whatever the client returned with the
    error. *)
Theorem fanout_stores_successes_only setup client order k :
  let shared := fanout setup client order in
  (k ∈ order ∧ succeeded setup client k ->
     ttfts shared !! k = Some (ttft (ask setup client k)) ∧
     responseTokens shared !! k = Some (completionTokens (ask setup client k)) ∧
     promptTokens shared !! k = Some (inputTokens (ask setup client k))) ∧
  (¬ (k ∈ order ∧ succeeded setup client k) ->
     ttfts shared !! k = None ∧ responseTokens shared !! k = None ∧
     promptTokens shared !! k = None).
Proof.
  intros shared. subst shared. unfold fanout.
  rewrite (fold_worker_lookup setup client ttfts ttft (worker_ttfts setup client)).
  rewrite (fold_worker_lookup setup client responseTokens completionTokens
             (worker_responseTokens setup client)).
  rewrite (fold_worker_lookup setup client promptTokens inputTokens
             (worker_promptTokens setup client)).
  split; intros H.
  - by rewrite !decide_True.
  - by rewrite !decide_False.
Qed.

Lemma fanout_stores_successes_only_witness :
  let setup := setupOf zero 3 in
  let client := clientOf (fun i => if i =? 1 then mkReply (dec 9 10) 77 88 (Some (Err "timeout"))
                                    else success (dec 1 10) 512 16) in
  let shared := fanout setup client [2; 0; 1] in
  ttfts shared !! 2 = Some (dec 1 10) ∧ ttfts shared !! 1 = None ∧
  responseTokens shared !! 1 = None ∧ promptTokens shared !! 1 = None.
Proof.
  intros setup client shared.
  destruct (fanout_stores_successes_only setup client [2; 0; 1] 2) as [Hin _].
  destruct (fanout_stores_successes_only setup client [2; 0; 1] 1) as [_ Hout].
  destruct Hin as (Ht & _).
  { split; [apply list_elem_of_here | exact I]. }
  destruct Hout as (Ht1 & Hr1 & Hp1).
  { intros [_ Hs]. exact Hs. }
  repeat split; assumption.
Defined.

(** Two runs that differ only in what the runtime decides (the order in
    which the goroutines finish and the orders in which the maps are ranged
    over) report the same counts, token totals and averages, success rate,
    generation speed, total throughput and duration. Only the TTFT
    statistics, and the prompt throughput that is computed from the maximal
    TTFT, are computed from the TTFT values in the order [Range] yields
    them. *)
Theorem Run_schedule_independent invalid setup client sched1 sched2 duration :
  valid_schedule setup client sched1 -> valid_schedule setup client sched2 ->
  let r1 := fst (Run invalid setup client sched1 duration) in
  let r2 := fst (Run invalid setup client sched2 duration) in
  SpeedResult.Concurrency r1 = SpeedResult.Concurrency r2 ∧
  SpeedResult.SuccessfulRequests r1 = SpeedResult.SuccessfulRequests r2 ∧
  SpeedResult.FailedRequests r1 = SpeedResult.FailedRequests r2 ∧
  SpeedResult.SuccessRate r1 = SpeedResult.SuccessRate r2 ∧
  SpeedResult.TotalPromptTokens r1 = SpeedResult.TotalPromptTokens r2 ∧
  SpeedResult.TotalCompletionTokens r1 = SpeedResult.TotalCompletionTokens r2 ∧
  SpeedResult.AvgPromptTokens r1 = SpeedResult.AvgPromptTokens r2 ∧
  SpeedResult.AvgCompletionTokens r1 = SpeedResult.AvgCompletionTokens r2 ∧
  SpeedResult.GenerationSpeed r1 = SpeedResult.GenerationSpeed r2 ∧
  SpeedResult.TotalThroughput r1 = SpeedResult.TotalThroughput r2 ∧
  SpeedResult.Duration r1 = SpeedResult.Duration r2.
Proof.
  intros Hv1 Hv2 r1 r2. subst r1 r2.
  rewrite (Run_reduce _ _ _ _ _ Hv1), (Run_reduce _ _ _ _ _ Hv2). done.
Qed.

Lemma Run_schedule_independent_witness :
  let setup := setupOf (of_int 50) 3 in
  let client := clientOf (fun i => if i =? 1 then failure else success (dec (i + 1) 10) 512 (16 + i)) in
  let r1 := fst (Run invalid_amd64 setup client (mkSchedule [0; 1; 2] [0; 2] [0; 2] [0; 2]) 3000000000) in
  let r2 := fst (Run invalid_amd64 setup client (mkSchedule [2; 1; 0] [2; 0] [0; 2] [2; 0]) 3000000000) in
  SpeedResult.TotalPromptTokens r1 = SpeedResult.TotalPromptTokens r2 ∧
  SpeedResult.GenerationSpeed r1 = SpeedResult.GenerationSpeed r2.
Proof.
  intros setup client r1 r2.
  destruct (Run_schedule_independent invalid_amd64 setup client
              (mkSchedule [0; 1; 2] [0; 2] [0; 2] [0; 2])
              (mkSchedule [2; 1; 0] [2; 0] [0; 2] [2; 0]) 3000000000)
    as (_ & _ & _ & _ & Hp & _ & _ & _ & Hg & _).
  - constructor; reflexivity.
  - constructor; cbn.
    + change (launched setup) with [0; 1; 2].
      apply (perm_trans (l' := [1; 2; 0])); [apply Permutation_swap|].
      symmetry. apply (Permutation_cons_append [1; 2] 0).
    + apply Permutation_swap.
    + reflexivity.
    + apply Permutation_swap.
  - split; assumption.
Defined.

(** ** Every request succeeds *)

Lemma div_eucl_mul a b : 0 < b -> Z.div_eucl (b * a) b = (a, 0).
Proof.
  intros Hb. pose proof (Z.div_mul a b ltac:(lia)) as Hq.
  pose proof (Z.mod_mul a b ltac:(lia)) as Hr.
  rewrite (Z.mul_comm b a). unfold Z.div, Z.modulo in *.
  destruct (Z.div_eucl (a * b) b) as [q r]. by subst.
Qed.

Lemma new_location_zero m : new_location m 0 = loc_Exact.
Proof. unfold new_location. by destruct (Z.even m). Qed.

Lemma SFdiv_core_self m e :
  SFdiv_core_binary prec emax (Zpos m) e (Zpos m) e = (2 ^ 53, -53, loc_Exact).
Proof.
  unfold SFdiv_core_binary. rewrite !Z.sub_diag.
  change (Z.min (fexp prec emax 0) 0) with (-53). change (0 - -53) with 53.
  cbv beta iota zeta. rewrite Z.shiftl_mul_pow2 by lia.
  rewrite div_eucl_mul by lia. by rewrite new_location_zero.
Qed.

(** A number with a full mantissa divided by itself is exactly 1. *)
Lemma div_self m e :
  div (S754_finite false m e) (S754_finite false m e) = of_int 1.
Proof.
  unfold div, SFdiv. rewrite SFdiv_core_self. cbn [xorb]. rewrite of_int_1.
  change (-53) with (-52 - Zpos 1).
  by apply binary_round_aux_shifted.
Qed.

(** When every request succeeds, for a concurrency from 1 up to the largest
    32-bit integer, the count of successes is the concurrency, the count of
    failures is 0 and the success rate is exactly 1, whatever the schedule. *)
Theorem all_requests_succeed invalid setup client sched duration :
  valid_schedule setup client sched ->
  (forall i, i ∈ launched setup -> succeeded setup client i = true) ->
  1 <= SpeedMeasurement.Concurrency setup <= Int.MaxInt32 ->
  let r := fst (Run invalid setup client sched duration) in
  SpeedResult.SuccessfulRequests r = SpeedMeasurement.Concurrency setup ∧
  SpeedResult.FailedRequests r = 0 ∧
  SpeedResult.SuccessRate r = of_int 1.
Proof.
  intros Hv Hall HN r. subst r. rewrite (Run_reduce _ _ _ _ _ Hv). cbn [fst].
  unfold reduce.
  cbn [SpeedResult.SuccessfulRequests SpeedResult.FailedRequests SpeedResult.SuccessRate].
  unfold countSucceeded, countFailed.
  destruct (all_succeed_successes setup client Hall) as [-> ->].
  unfold launched. rewrite length_seqZ.
  set (N := SpeedMeasurement.Concurrency setup) in *.
  unfold Int.MaxInt32 in HN.
  rewrite Z2Nat.id by lia. rewrite wrap32_small by (unfold Int.MaxInt32; lia).
  split; [done|]. split; [done|].
  destruct (Z.ltb_spec 0 N); [|lia].
  destruct (of_int_exact N ltac:(lia)) as (m & e & -> & _).
  apply div_self.
Qed.

Lemma all_requests_succeed_witness :
  let setup := setupOf (of_int 50) 3 in
  let client := clientOf (fun i => success (dec (i + 1) 10) 512 16) in
  let r := fst (Run invalid_amd64 setup client (inOrder setup client) 3000000000) in
  SpeedResult.SuccessfulRequests r = 3 ∧ SpeedResult.FailedRequests r = 0 ∧
  SpeedResult.SuccessRate r = of_int 1.
Proof.
  intros setup client r.
  apply (all_requests_succeed invalid_amd64 setup client (inOrder setup client) 3000000000).
  - constructor; reflexivity.
  - intros i _. reflexivity.
  - vm_compute. split; discriminate.
Defined.

(** ** The order of the numbers *)

Section NumberOrderFacts.

Lemma ltb_rank x y :
  is_nan x = false -> ltb x y = true <-> rank_lt (rank x) (rank y) ∧ is_nan y = false.
Proof.
  intros Hx. rewrite <- less_rank. unfold sort.less. rewrite Hx, orb_false_r.
  split; [|by intros [? _]]. intros H. split; [done|].
  destruct y; try done. by destruct x.
Qed.

Lemma leb_rank x y :
  is_nan x = false -> is_nan y = false ->
  leb x y = true <-> ¬ rank_lt (rank y) (rank x).
Proof.
  intros Hx Hy. split.
  - intros Hle Hlt. apply less_rank in Hlt.
    unfold sort.less in Hlt. rewrite Hy, orb_false_r in Hlt.
    revert Hle Hlt. unfold leb, ltb, SFleb, SFltb.
    destruct x as [[]|[]| |[] m1 e1], y as [[]|[]| |[] m2 e2]; cbn; try done.
    + rewrite (Z.compare_antisym e1 e2).
      destruct (Z.compare e1 e2); cbn; try done.
      change (Pos.compare_cont Eq m1 m2) with (Pos.compare m1 m2).
      change (Pos.compare_cont Eq m2 m1) with (Pos.compare m2 m1).
      rewrite (Pos.compare_antisym m1 m2). by destruct (Pos.compare m1 m2).
    + rewrite (Z.compare_antisym e1 e2).
      destruct (Z.compare e1 e2); cbn; try done.
      change (Pos.compare_cont Eq m1 m2) with (Pos.compare m1 m2).
      change (Pos.compare_cont Eq m2 m1) with (Pos.compare m2 m1).
      rewrite (Pos.compare_antisym m1 m2). by destruct (Pos.compare m1 m2).
  - intros Hn. apply not_less_leb; [done|done|]. by apply less_false_rank.
Qed.

(** Apart from the two zeros, values of the same rank are the same value. *)
Lemma rank_inj x y :
  x ≠ neg_zero -> y ≠ neg_zero -> rank x = rank y -> x = y.
Proof.
  unfold neg_zero.
  destruct x as [[]|[]| |[] m1 e1], y as [[]|[]| |[] m2 e2]; cbn; try done;
    intros _ _ [= He Hm]; f_equal; lia.
Qed.

Lemma rank_lt_neither a b : ¬ rank_lt a b -> ¬ rank_lt b a -> a = b.
Proof.
  destruct a as [[a1 a2] a3], b as [[b1 b2] b3]. unfold rank_lt. cbn.
  intros H1 H2. f_equal; [f_equal|]; lia.
Qed.

End NumberOrderFacts.

(** ** The extremes of the TTFT values *)

Section ExtremeFacts.

Abbreviation step :=
  (fun '(sumTtft, maxTtft, minTtft) ttft =>
     (add sumTtft ttft,
      if gtb ttft maxTtft then ttft else maxTtft,
      if ltb ttft minTtft then ttft else minTtft)).

Lemma ttftLoop_from values : forall sumTtft maxTtft minTtft,
  is_nan maxTtft = false -> is_nan minTtft = false ->
  Forall (fun v => is_nan v = false) values ->
  let '(_, maxTtft', minTtft') := fold_left step values (sumTtft, maxTtft, minTtft) in
  (maxTtft' = maxTtft ∨ maxTtft' ∈ values) ∧ (minTtft' = minTtft ∨ minTtft' ∈ values) ∧
  is_nan maxTtft' = false ∧ is_nan minTtft' = false ∧
  ¬ rank_lt (rank maxTtft') (rank maxTtft) ∧ ¬ rank_lt (rank minTtft) (rank minTtft') ∧
  forall v, v ∈ values ->
    ¬ rank_lt (rank maxTtft') (rank v) ∧ ¬ rank_lt (rank v) (rank minTtft').
Proof.
  induction values as [|x values IH]; intros sumTtft maxTtft minTtft Hmax Hmin Hall;
    cbn [fold_left].
  - split; [by left|]. split; [by left|]. split; [done|]. split; [done|].
    split; [unfold rank_lt; lia|]. split; [unfold rank_lt; lia|].
    intros v Hv. by apply elem_of_nil in Hv.
  - apply Forall_cons in Hall as [Hx Hall].
    set (maxTtft1 := if gtb x maxTtft then x else maxTtft).
    set (minTtft1 := if ltb x minTtft then x else minTtft).
    assert (is_nan maxTtft1 = false) as Hmax1 by (subst maxTtft1; by destruct (gtb _ _)).
    assert (is_nan minTtft1 = false) as Hmin1 by (subst minTtft1; by destruct (ltb _ _)).
    assert ((maxTtft1 = maxTtft ∨ maxTtft1 = x) ∧
            ¬ rank_lt (rank maxTtft1) (rank maxTtft) ∧ ¬ rank_lt (rank maxTtft1) (rank x))
      as (Hmax1in & Hmax1up & Hmax1x).
    { subst maxTtft1. change (gtb x maxTtft) with (ltb maxTtft x).
      destruct (ltb maxTtft x) eqn:Hlt.
      - apply ltb_rank in Hlt as [Hlt _]; [|done].
        split; [by right|]. revert Hlt. unfold rank_lt. lia.
      - split; [by left|]. split; [unfold rank_lt; lia|].
        intros Hlt'. assert (ltb maxTtft x = true); [|congruence].
        by apply ltb_rank. }
    assert ((minTtft1 = minTtft ∨ minTtft1 = x) ∧
            ¬ rank_lt (rank minTtft) (rank minTtft1) ∧ ¬ rank_lt (rank x) (rank minTtft1))
      as (Hmin1in & Hmin1up & Hmin1x).
    { subst minTtft1. destruct (ltb x minTtft) eqn:Hlt.
      - apply ltb_rank in Hlt as [Hlt _]; [|done].
        split; [by right|]. revert Hlt. unfold rank_lt. lia.
      - split; [by left|]. split; [unfold rank_lt; lia|].
        intros Hlt'. assert (ltb x minTtft = true); [|congruence].
        by apply ltb_rank. }
    specialize (IH (add sumTtft x) maxTtft1 minTtft1 Hmax1 Hmin1 Hall).
    destruct (fold_left step values (add sumTtft x, maxTtft1, minTtft1))
      as [[sumTtft' maxTtft'] minTtft'].
    destruct IH as (Hin1 & Hin2 & Hn1 & Hn2 & Hup & Hdown & Hbound).
    split; [|split; [|split; [done|split; [done|split; [|split]]]]].
    + destruct Hin1 as [->|?]; [|right; by apply list_elem_of_further].
      destruct Hmax1in as [->| ->]; [by left | right; apply list_elem_of_here].
    + destruct Hin2 as [->|?]; [|right; by apply list_elem_of_further].
      destruct Hmin1in as [->| ->]; [by left | right; apply list_elem_of_here].
    + revert Hup Hmax1up. unfold rank_lt. lia.
    + revert Hdown Hmin1up. unfold rank_lt. lia.
    + intros v [->|Hv]%elem_of_cons; [|by apply Hbound].
      split.
      * revert Hup Hmax1x. unfold rank_lt. lia.
      * revert Hdown Hmin1x. unfold rank_lt. lia.
Qed.

End ExtremeFacts.

Lemma ttftStats_bounds invalid (ttftValues : list float64) :
  ttftValues ≠ [] -> Forall (fun v => is_nan v = false) ttftValues ->
  let stats := ttftStats invalid ttftValues in
  sMaxTtft stats ∈ ttftValues ∧ sMinTtft stats ∈ ttftValues ∧
  forall v, v ∈ ttftValues ->
    leb (sMinTtft stats) v = true ∧ leb v (sMaxTtft stats) = true.
Proof.
  intros Hne Hall stats. subst stats.
  destruct ttftValues as [|first rest]; [done|]. unfold ttftStats, ttftLoop.
  pose proof (Forall_inv Hall) as Hfirst. cbn beta in Hfirst.
  pose proof (ttftLoop_from (first :: rest) zero first first Hfirst Hfirst Hall) as H.
  destruct (fold_left _ (first :: rest) (zero, first, first))
    as [[sumTtft maxTtft] minTtft].
  destruct H as (Hin1 & Hin2 & Hn1 & Hn2 & _ & _ & Hbound).
  cbn [sMaxTtft sMinTtft].
  split; [|split].
  - destruct Hin1 as [->|?]; [apply list_elem_of_here | done].
  - destruct Hin2 as [->|?]; [apply list_elem_of_here | done].
  - intros v Hv. destruct (Hbound v Hv) as [Hup Hdown].
    assert (is_nan v = false) as Hv' by (rewrite Forall_forall in Hall; by apply Hall).
    split; by apply leb_rank.
Qed.

(** For TTFT values that are numbers, the maximum and the minimum found by
    the loop of [Run] are among the values, and every value lies between
    them. *)
Theorem ttftStats_extremes invalid (ttftValues : list float64) :
  ttftValues ≠ [] -> Forall (fun v => is_nan v = false) ttftValues ->
  let stats := ttftStats invalid ttftValues in
  sMaxTtft stats ∈ ttftValues ∧ sMinTtft stats ∈ ttftValues ∧
  forall v, v ∈ ttftValues ->
    leb (sMinTtft stats) v = true ∧ leb v (sMaxTtft stats) = true.
Proof. apply ttftStats_bounds. Qed.

Lemma ttftStats_extremes_witness :
  let values := [dec 3 10; dec 1 10; dec 4 10; dec 2 10] in
  sMaxTtft (ttftStats invalid_amd64 values) ∈ values ∧
  leb (sMinTtft (ttftStats invalid_amd64 values)) (dec 2 10) = true.
Proof.
  intros values.
  destruct (ttftStats_extremes invalid_amd64 values) as (Hmax & _ & Hbound).
  - discriminate.
  - repeat constructor.
  - split; [exact Hmax|]. apply Hbound.
    do 3 apply list_elem_of_further. apply list_elem_of_here.
Defined.

(** ** More on the percentile *)

Section SortedFacts.

Lemma ascending_head h t v :
  ascending (h :: t) -> v ∈ h :: t -> sort.less v h = false.
Proof.
  unfold ascending. intros Hs Hv. apply StronglySorted_inv in Hs as [_ Hh].
  apply elem_of_cons in Hv as [->|Hv]; [apply less_irrefl|].
  rewrite Forall_forall in Hh. by apply Hh.
Qed.

(** Two increasing arrangements of the same values are the same list, the
    negative zero set apart. *)
Lemma ascending_unique l1 : forall l2,
  ascending l1 -> ascending l2 -> l1 ≡ₚ l2 ->
  Forall (fun v => v ≠ neg_zero) l1 -> l1 = l2.
Proof.
  induction l1 as [|h1 t1 IH]; intros l2 Hs1 Hs2 Hperm Hnz.
  - by apply Permutation_nil_l in Hperm.
  - destruct l2 as [|h2 t2]; [by apply Permutation_nil_r in Hperm|].
    assert (h1 = h2) as <-.
    { assert (h2 ∈ h1 :: t1) as Hin2 by (rewrite Hperm; apply list_elem_of_here).
      assert (h1 ∈ h2 :: t2) as Hin1 by (rewrite <- Hperm; apply list_elem_of_here).
      pose proof (ascending_head _ _ _ Hs1 Hin2) as H21.
      pose proof (ascending_head _ _ _ Hs2 Hin1) as H12.
      apply less_false_rank in H21, H12.
      rewrite Forall_forall in Hnz.
      apply rank_inj; [apply Hnz, list_elem_of_here | by apply Hnz |].
      by apply rank_lt_neither. }
    f_equal. apply Permutation_cons_inv in Hperm.
    apply IH; [| |done|].
    + unfold ascending in *. by apply StronglySorted_inv in Hs1 as [? _].
    + unfold ascending in *. by apply StronglySorted_inv in Hs2 as [? _].
    + by apply Forall_inv_tail in Hnz.
Qed.

Lemma Float64s_Permutation_eq l1 l2 :
  l1 ≡ₚ l2 -> Forall (fun v => v ≠ neg_zero) l1 -> sort.Float64s l1 = sort.Float64s l2.
Proof.
  intros Hperm Hnz.
  apply ascending_unique; try apply Float64s_ascending.
  - by rewrite !Float64s_Permutation.
  - by rewrite Float64s_Permutation.
Qed.

Lemma percentileIndex_zero invalid len :
  0 < len <= Int.MaxInt64 -> percentileIndex invalid len zero = 0.
Proof.
  intros Hlen. unfold percentileIndex.
  pose proof (of_int_int64 len) as Hof. unfold Int.MinInt64 in Hof.
  destruct len as [|p|p]; try lia. destruct Hof as (m & e & ->); [lia|].
  reflexivity.
Qed.

End SortedFacts.

Lemma calculatePercentile_perm invalid (values1 values2 : list float64) p :
  values1 ≡ₚ values2 -> Forall (fun v => v ≠ neg_zero) values1 ->
  calculatePercentile invalid values1 p = calculatePercentile invalid values2 p.
Proof.
  intros Hperm Hnz. unfold calculatePercentile.
  destruct values1 as [|v1 values1], values2 as [|v2 values2]; [done| | |].
  - by apply Permutation_nil_l in Hperm.
  - by apply Permutation_nil_r in Hperm.
  - by rewrite (Float64s_Permutation_eq _ _ Hperm Hnz).
Qed.

Lemma calculatePercentile_elem invalid (values : list float64) p :
  values ≠ [] -> calculatePercentile invalid values p ∈ values.
Proof.
  intros Hne.
  assert (calculatePercentile invalid values p ∈ sort.Float64s values) as Hin.
  { eapply list_elem_of_lookup_2. by apply calculatePercentile_lookup. }
  by rewrite Float64s_Permutation in Hin.
Qed.

(** The percentile does not depend on the order of the values: two slices
    with the same values, none of them the negative zero, have the same
    percentiles. *)
Theorem calculatePercentile_Permutation invalid (values1 values2 : list float64) p :
  values1 ≡ₚ values2 -> Forall (fun v => v ≠ neg_zero) values1 ->
  calculatePercentile invalid values1 p = calculatePercentile invalid values2 p.
Proof. apply calculatePercentile_perm. Qed.

Lemma calculatePercentile_Permutation_witness :
  calculatePercentile invalid_amd64 [dec 3 10; dec 1 10; dec 2 10] (dec 5 10)
  = calculatePercentile invalid_amd64 [dec 1 10; dec 3 10; dec 2 10] (dec 5 10).
Proof.
  apply calculatePercentile_Permutation.
  - apply Permutation_swap.
  - repeat constructor; discriminate.
Defined.

(** For values that are numbers, every percentile lies between the minimum
    and the maximum found by the loop of [Run], whatever [p] is. *)
Theorem percentile_between_extremes invalid (ttftValues : list float64) p :
  ttftValues ≠ [] -> Forall (fun v => is_nan v = false) ttftValues ->
  let stats := ttftStats invalid ttftValues in
  leb (sMinTtft stats) (calculatePercentile invalid ttftValues p) = true ∧
  leb (calculatePercentile invalid ttftValues p) (sMaxTtft stats) = true.
Proof.
  intros Hne Hall stats.
  destruct (ttftStats_bounds invalid ttftValues Hne Hall) as (_ & _ & Hbound).
  apply Hbound. by apply calculatePercentile_elem.
Qed.

Lemma percentile_between_extremes_witness :
  let values := [dec 3 10; dec 1 10; dec 4 10; dec 2 10] in
  leb (calculatePercentile invalid_amd64 values (dec 99 100))
      (sMaxTtft (ttftStats invalid_amd64 values)) = true.
Proof.
  intros values.
  destruct (percentile_between_extremes invalid_amd64 values (dec 99 100)) as [_ H].
  - discriminate.
  - repeat constructor.
  - exact H.
Defined.

(** For a slice, of fewer than 2^53 values, of numbers other than the
    negative zero, the percentile 1.0 is the very maximum the loop of [Run]
    finds, and the percentile 0 the very minimum. *)
Theorem extreme_percentiles invalid (ttftValues : list float64) :
  ttftValues ≠ [] -> Z.of_nat (length ttftValues) < 2 ^ 53 ->
  Forall (fun v => is_nan v = false) ttftValues ->
  Forall (fun v => v ≠ neg_zero) ttftValues ->
  let stats := ttftStats invalid ttftValues in
  calculatePercentile invalid ttftValues (of_int 1) = sMaxTtft stats ∧
  calculatePercentile invalid ttftValues zero = sMinTtft stats.
Proof.
  intros Hne Hlen Hnan Hnz stats.
  destruct (ttftStats_bounds invalid ttftValues Hne Hnan) as (Hmax & Hmin & Hbound).
  fold stats in Hmax, Hmin, Hbound.
  assert (forall p, calculatePercentile invalid ttftValues p ∈ ttftValues) as Hin.
  { intros p. by apply calculatePercentile_elem. }
  rewrite Forall_forall in Hnan, Hnz.
  assert (forall x y, x ∈ ttftValues -> y ∈ ttftValues ->
            leb x y = true -> sort.less x y = false -> x = y) as Hanti.
  { intros x y Hx Hy Hle Hge. apply rank_inj; [by apply Hnz | by apply Hnz|].
    apply leb_rank in Hle; [|by apply Hnan|by apply Hnan].
    apply less_false_rank in Hge. by apply rank_lt_neither. }
  split.
  - apply Hanti; [apply Hin | done | apply Hbound, Hin |].
    assert (last (sort.Float64s ttftValues)
            = Some (calculatePercentile invalid ttftValues (of_int 1))) as Hlast
      by (by apply calculatePercentile_one).
    apply (ascending_last _ _ (Float64s_ascending ttftValues) Hlast).
    by rewrite Float64s_Permutation.
  - symmetry. apply Hanti; [done | apply Hin | apply Hbound, Hin |].
    pose proof (calculatePercentile_lookup invalid ttftValues zero Hne) as Hlook.
    rewrite percentileIndex_zero in Hlook
      by (unfold Int.MaxInt64; destruct ttftValues; [done | cbn [length] in *; lia]).
    pose proof (Float64s_ascending ttftValues) as Hasc.
    assert (sMinTtft stats ∈ sort.Float64s ttftValues) as Hmin'
      by (by rewrite Float64s_Permutation).
    destruct (sort.Float64s ttftValues) as [|h t]; [done|].
    cbn in Hlook. injection Hlook as <-.
    by apply (ascending_head h t).
Qed.

Lemma extreme_percentiles_witness :
  let values := [dec 3 10; dec 1 10; dec 4 10; dec 2 10] in
  calculatePercentile invalid_amd64 values (of_int 1)
    = sMaxTtft (ttftStats invalid_amd64 values) ∧
  calculatePercentile invalid_amd64 values zero
    = sMinTtft (ttftStats invalid_amd64 values).
Proof.
  intros values. apply (extreme_percentiles invalid_amd64 values).
  - discriminate.
  - vm_compute. reflexivity.
  - repeat constructor.
  - repeat constructor; discriminate.
Defined.

(** The order statistics of two arrangements of the same numbers, none of
    them the negative zero, are the same. *)
Lemma ttftStats_perm invalid (values1 values2 : list float64) :
  values1 ≡ₚ values2 ->
  Forall (fun v => is_nan v = false) values1 ->
  Forall (fun v => v ≠ neg_zero) values1 ->
  let stats1 := ttftStats invalid values1 in
  let stats2 := ttftStats invalid values2 in
  sMaxTtft stats1 = sMaxTtft stats2 ∧ sMinTtft stats1 = sMinTtft stats2 ∧
  sMedianTtft stats1 = sMedianTtft stats2 ∧ sP95Ttft stats1 = sP95Ttft stats2 ∧
  sP99Ttft stats1 = sP99Ttft stats2.
Proof.
  intros Hperm Hnan Hnz stats1 stats2.
  destruct values1 as [|v1 rest1].
  { apply Permutation_nil_l in Hperm. by subst. }
  destruct values2 as [|v2 rest2]; [by apply Permutation_nil_r in Hperm|].
  set (values1 := v1 :: rest1) in *. set (values2 := v2 :: rest2) in *.
  assert (Forall (fun v => is_nan v = false) values2) as Hnan2 by (by rewrite <- Hperm).
  destruct (ttftStats_bounds invalid values1 ltac:(done) Hnan) as (Hmax1 & Hmin1 & Hb1).
  destruct (ttftStats_bounds invalid values2 ltac:(done) Hnan2) as (Hmax2 & Hmin2 & Hb2).
  fold stats1 in Hmax1, Hmin1, Hb1. fold stats2 in Hmax2, Hmin2, Hb2.
  rewrite Forall_forall in Hnan, Hnz.
  assert (forall x y, x ∈ values1 -> y ∈ values1 ->
            leb x y = true -> leb y x = true -> x = y) as Hanti.
  { intros x y Hx Hy Hxy Hyx. apply rank_inj; [by apply Hnz | by apply Hnz|].
    apply leb_rank in Hxy, Hyx; try (by apply Hnan). by apply rank_lt_neither. }
  split; [|split].
  - apply Hanti; [done | by rewrite Hperm | |].
    + apply Hb2. by rewrite <- Hperm.
    + apply Hb1. by rewrite Hperm.
  - apply Hanti; [done | by rewrite Hperm | |].
    + apply Hb1. by rewrite Hperm.
    + apply Hb2. by rewrite <- Hperm.
  - assert (forall p, calculatePercentile invalid values1 p
                      = calculatePercentile invalid values2 p) as Hp.
    { intros p. apply calculatePercentile_perm; [done|]. by apply Forall_forall. }
    subst stats1 stats2 values1 values2. unfold ttftStats.
    destruct (ttftLoop (v1 :: rest1) v1) as [[sum1 max1] min1].
    destruct (ttftLoop (v2 :: rest2) v2) as [[sum2 max2] min2].
    cbn [sMedianTtft sP95Ttft sP99Ttft]. by rewrite !Hp.
Qed.

(** When the TTFTs of the successful requests are numbers other than the
    negative zero, the maximal, minimal, median, 95th and 99th percentile
    TTFT and the prompt throughput are the same under every schedule: of all
    the result, only the mean TTFT and the deviation, which come from a sum
    of float64 values, are computed in an order the runtime chooses. *)
Theorem Run_order_statistics_schedule_independent
    invalid setup client sched1 sched2 duration :
  valid_schedule setup client sched1 -> valid_schedule setup client sched2 ->
  (forall i, i ∈ successes setup client ->
     is_nan (ttft (ask setup client i)) = false ∧ ttft (ask setup client i) ≠ neg_zero) ->
  let r1 := fst (Run invalid setup client sched1 duration) in
  let r2 := fst (Run invalid setup client sched2 duration) in
  SpeedResult.MaxTtft r1 = SpeedResult.MaxTtft r2 ∧
  SpeedResult.MinTtft r1 = SpeedResult.MinTtft r2 ∧
  SpeedResult.MedianTtft r1 = SpeedResult.MedianTtft r2 ∧
  SpeedResult.P95Ttft r1 = SpeedResult.P95Ttft r2 ∧
  SpeedResult.P99Ttft r1 = SpeedResult.P99Ttft r2 ∧
  SpeedResult.PromptThroughput r1 = SpeedResult.PromptThroughput r2.
Proof.
  intros Hv1 Hv2 Hnum r1 r2. subst r1 r2.
  rewrite (Run_reduce _ _ _ _ _ Hv1), (Run_reduce _ _ _ _ _ Hv2). cbn [fst].
  assert (ttftSamples setup client sched1 ≡ₚ ttftSamples setup client sched2) as Hperm.
  { unfold ttftSamples. apply fmap_Permutation.
    destruct Hv1 as [_ _ _ ->]. by destruct Hv2 as [_ _ _ ->]. }
  assert (Forall (fun v => is_nan v = false ∧ v ≠ neg_zero)
            (ttftSamples setup client sched1)) as Hall.
  { unfold ttftSamples. apply Forall_fmap, Forall_forall. intros i Hi. cbn.
    apply Hnum. by destruct Hv1 as [_ _ _ <-]. }
  apply Forall_and in Hall as [Hnan Hnz].
  destruct (ttftStats_perm invalid _ _ Hperm Hnan Hnz) as (Hmax & Hmin & Hmed & H95 & H99).
  unfold reduce.
  cbn [SpeedResult.MaxTtft SpeedResult.MinTtft SpeedResult.MedianTtft
       SpeedResult.P95Ttft SpeedResult.P99Ttft SpeedResult.PromptThroughput].
  by rewrite Hmax, Hmin, Hmed, H95, H99.
Qed.

Lemma Run_order_statistics_schedule_independent_witness :
  let setup := setupOf (of_int 50) 3 in
  let client := clientOf (fun i => if i =? 1 then failure else success (dec (i + 1) 10) 512 (16 + i)) in
  let r1 := fst (Run invalid_amd64 setup client (mkSchedule [0; 1; 2] [0; 2] [0; 2] [0; 2]) 3000000000) in
  let r2 := fst (Run invalid_amd64 setup client (mkSchedule [0; 1; 2] [0; 2] [0; 2] [2; 0]) 3000000000) in
  SpeedResult.MedianTtft r1 = SpeedResult.MedianTtft r2 ∧
  SpeedResult.PromptThroughput r1 = SpeedResult.PromptThroughput r2.
Proof.
  intros setup client r1 r2.
  destruct (Run_order_statistics_schedule_independent invalid_amd64 setup client
              (mkSchedule [0; 1; 2] [0; 2] [0; 2] [0; 2])
              (mkSchedule [0; 1; 2] [0; 2] [0; 2] [2; 0]) 3000000000)
    as (_ & _ & Hmed & _ & _ & Hprompt).
  - constructor; reflexivity.
  - constructor; try reflexivity. apply Permutation_swap.
  - change (successes setup client) with [0; 2].
    intros i Hi. apply elem_of_cons in Hi as [->|Hi].
    + split; [reflexivity | discriminate].
    + apply list_elem_of_singleton in Hi as ->. split; [reflexivity | discriminate].
  - split; assumption.
Defined.

(** ** Signs *)

Section SignFacts.

Lemma has_sign_nonneg x : has_sign false x -> nonneg_or_nan x.
Proof. by destruct x. Qed.

Lemma nonneg_or_nan_cases x : nonneg_or_nan x -> x = S754_nan ∨ has_sign false x.
Proof. destruct x; cbn; auto. Qed.

Lemma Pow2_nonneg x : nonneg_or_nan (Pow2 x).
Proof.
  unfold Pow2, mul, SFmul. destruct x as [s|s| |s m e]; cbn [nonneg_or_nan];
    try apply xorb_nilpotent; [done|].
  rewrite xorb_nilpotent. by apply has_sign_nonneg, binary_round_aux_sign.
Qed.

Lemma add_nonneg x y : nonneg_or_nan x -> nonneg_or_nan y -> nonneg_or_nan (add x y).
Proof.
  destruct x as [s1|s1| |s1 m1 e1], y as [s2|s2| |s2 m2 e2]; cbn; try done;
    try (by intros -> ->).
  intros -> ->. cbn. apply has_sign_nonneg. apply binary_round_sign.
Qed.

Lemma div_of_int_nonneg x n : nonneg_or_nan x -> 0 < n -> nonneg_or_nan (div x (of_int n)).
Proof.
  intros Hx Hn. destruct (of_int_pos n Hn) as [->|(m & e & ->)].
  - destruct x as [s|s| |s m e]; cbn in *; try done; by subst.
  - apply nonneg_or_nan_cases in Hx as [->|Hx]; [done|].
    apply has_sign_nonneg. rewrite <- (xorb_false_r false). by apply div_sign_finite.
Qed.

Lemma sqrtrem_nonneg n : 0 <= n -> 0 <= fst (Z.sqrtrem n).
Proof.
  intros Hn. pose proof (Z.sqrtrem_spec n Hn) as H.
  destruct (Z.sqrtrem n) as [s r]. cbn. lia.
Qed.

Lemma Sqrt_nonneg x : nonneg_or_nan x -> nonneg_or_nan (Sqrt x).
Proof.
  destruct x as [s|s| |s m e]; cbn [nonneg_or_nan]; try (by intros ->); [done|].
  intros ->. unfold Sqrt, SFsqrt, SFsqrt_core_binary.
  set (s := e - _).
  set (m' := match s with Z.pos _ => Z.shiftl (Z.pos m) s | 0 => Z.pos m | Z.neg _ => 0 end).
  assert (0 <= m') as Hm'.
  { subst m'. destruct s; try lia. apply Z.shiftl_nonneg. lia. }
  pose proof (sqrtrem_nonneg m' Hm') as Hq.
  destruct (Z.sqrtrem m') as [q r]. cbn [fst] in Hq.
  apply has_sign_nonneg. by apply binary_round_aux_sign.
Qed.

Lemma sum_squares_nonneg mean (values : list float64) : forall sum,
  nonneg_or_nan sum ->
  nonneg_or_nan (fold_left (fun sum v => add sum (Pow2 (sub v mean))) values sum).
Proof.
  induction values as [|v values IH]; intros sum Hsum; cbn [fold_left]; [done|].
  apply IH, add_nonneg; [done | apply Pow2_nonneg].
Qed.

Lemma roundToTwoDecimals_nonneg x : nonneg_or_nan x -> nonneg_or_nan (roundToTwoDecimals x).
Proof.
  intros [->|Hx]%nonneg_or_nan_cases; [done|].
  by apply has_sign_nonneg, roundToTwoDecimals_sign.
Qed.

Lemma calculateStdDev_nonneg_or_nan (values : list float64) mean :
  nonneg_or_nan (calculateStdDev values mean).
Proof.
  unfold calculateStdDev. destruct values as [|v values]; [done|].
  apply Sqrt_nonneg, div_of_int_nonneg; [|cbn [length]; lia].
  by apply sum_squares_nonneg.
Qed.

End SignFacts.

(** The standard deviation is never a negative number, and never the
    negative zero: whatever the values and the mean it is given,
    [calculateStdDev] returns a NaN or a number whose sign bit is clear, and
    so is the deviation [Run] reports, under every schedule. *)
Theorem StdDev_never_negative invalid :
  (forall values mean, nonneg_or_nan (calculateStdDev values mean)) ∧
  (forall setup client sched duration,
     nonneg_or_nan
       (SpeedResult.StdDevTtft (fst (Run invalid setup client sched duration)))).
Proof.
  split; [apply calculateStdDev_nonneg_or_nan|].
  intros setup client sched duration. unfold Run. cbn [fst]. unfold reduce.
  cbn [SpeedResult.StdDevTtft]. unfold ttftStats.
  destruct (Range _ _) as [|first rest]; [done|].
  destruct (ttftLoop (first :: rest) first) as [[sumTtft maxTtft] minTtft].
  cbn [sStdDevTtft]. apply roundToTwoDecimals_nonneg, calculateStdDev_nonneg_or_nan.
Qed.

(** Rounding to two decimals keeps what kind of value it is given: a NaN
    stays a NaN, an infinity the same infinity, a zero the same zero, and a
    number stays a number of the same sign (a negative value too small to
    show in two decimals becomes the negative zero). *)
Theorem roundToTwoDecimals_keeps_sign :
  roundToTwoDecimals nan = nan ∧
  (forall s, roundToTwoDecimals (S754_infinity s) = S754_infinity s) ∧
  (forall s, roundToTwoDecimals (S754_zero s) = S754_zero s) ∧
  (forall s x, has_sign s x -> has_sign s (roundToTwoDecimals x)).
Proof.
  split; [apply roundToTwoDecimals_nan|].
  split; [apply roundToTwoDecimals_infinity|].
  split; [apply roundToTwoDecimals_zero | apply roundToTwoDecimals_sign].
Qed.

Lemma roundToTwoDecimals_keeps_sign_witness :
  has_sign true (roundToTwoDecimals (dec (-1) 1000)) ∧
  roundToTwoDecimals (dec (-1) 1000) = neg_zero.
Proof.
  destruct roundToTwoDecimals_keeps_sign as (_ & _ & _ & Hsign).
  split; [|reflexivity]. apply Hsign. reflexivity.
Defined.

(** ** More on the measurement run *)

Lemma measureLevels_all invalid benchmark world latency levels :
  cmd.measureLevels invalid benchmark world latency levels
  = (configAt benchmark latency <$> levels,
     resultAt invalid benchmark world latency <$> levels, None).
Proof.
  induction levels as [|concurrency levels IH]; [done|].
  cbn [cmd.measureLevels]. unfold cmd.measureSpeed, Run at 1. rewrite IH. done.
Qed.

(** Once the latency probe has answered, [run] and [runCli] measure every
    configured concurrency level, in the order given, each with the probed
    latency, and return one result per level and no error: a level is never
    skipped and the loop never stops early. When the probe fails they return
    the error without a single call of [Run]. *)
Theorem run_measures_every_level invalid benchmark world :
  (forall latency, cmd.measuredLatency world = inl latency ->
     cmd.run invalid benchmark world
     = (configAt benchmark latency <$> cmd.ConcurrencyLevels benchmark,
        resultAt invalid benchmark world latency <$> cmd.ConcurrencyLevels benchmark,
        None) ∧
     cmd.runCli invalid benchmark world = cmd.run invalid benchmark world) ∧
  (forall e, cmd.measuredLatency world = inr e ->
     (cmd.run invalid benchmark world).1.1 = [] ∧
     (cmd.runCli invalid benchmark world).1.1 = [] ∧
     is_Some (cmd.run invalid benchmark world).2 ∧
     is_Some (cmd.runCli invalid benchmark world).2).
Proof.
  split.
  - intros latency Hl. unfold cmd.run, cmd.runCli. rewrite Hl.
    by rewrite measureLevels_all.
  - intros e He. unfold cmd.run, cmd.runCli. rewrite He. cbn. eauto.
Qed.

Lemma run_measures_every_level_witness :
  let benchmark :=
    cmd.mkBenchmark "http://localhost:8000/v1" "" "key" "model" "Hello" 0 512 false [1; 2] 2 in
  let world :=
    cmd.mkWorld (clientOf (fun i => success (dec (i + 1) 10) 512 16)) (inl "model") (inl 2)
      (inl (of_int 50)) (fun n => mkSchedule (seqZ 0 n) (seqZ 0 n) (seqZ 0 n) (seqZ 0 n))
      (fun _ => 3000000000) in
  SpeedMeasurement.Concurrency <$> (cmd.run invalid_amd64 benchmark world).1.1 = [1; 2] ∧
  length (cmd.run invalid_amd64 benchmark world).1.2 = 2%nat.
Proof.
  intros benchmark world.
  destruct (run_measures_every_level invalid_amd64 benchmark world) as [Hok _].
  destruct (Hok (of_int 50)) as [-> _]; [reflexivity|]. split; reflexivity.
Defined.

(** [main] starts no measurement unless everything before it went well: if
    [Run] is called at all, the base URL is not empty, a model was named or
    discovered, the request counting the prompt tokens succeeded and the
    latency probe answered. *)
Theorem main_runs_only_after_checks invalid fields flags world :
  cmd.runs (cmd.main invalid fields flags world) ≠ [] ->
  cmd.baseURL flags ≠ "" ∧
  (cmd.model flags ≠ "" ∨ ∃ name, cmd.firstAvailableModel world = inl name) ∧
  (∃ tokens, cmd.promptTokensProbe world = inl tokens) ∧
  (∃ latency, cmd.measuredLatency world = inl latency).
Proof.
  unfold cmd.main.
  destruct (cmd.ParseConcurrencyLevels fields (cmd.concurrencyStr flags)) as [levels|];
    [|done].
  destruct (String.eqb_spec (cmd.baseURL flags) ""); [done|].
  assert (cmd.model flags ≠ "" ∨ (cmd.model flags = "" ∧
            (if String.eqb (cmd.model flags) "" then cmd.firstAvailableModel world
             else inl (cmd.model flags)) = cmd.firstAvailableModel world)) as Hmodel.
  { destruct (String.eqb_spec (cmd.model flags) ""); [by right | by left]. }
  destruct (if String.eqb (cmd.model flags) "" then _ else _) as [modelName|] eqn:Hd;
    [|done].
  destruct (cmd.promptTokensProbe world) as [promptTokens|]; [|done].
  set (benchmark := cmd.mkBenchmark _ _ _ _ _ _ _ _ _ _).
  intros Hruns. split; [done|]. split.
  { destruct Hmodel as [?|[_ Heq]]; [by left|]. right. rewrite <- Heq. eauto. }
  split; [eauto|].
  destruct (cmd.measuredLatency world) as [latency|] eqn:Hl; [eauto|].
  exfalso. apply Hruns. unfold cmd.runCli, cmd.run. rewrite Hl.
  by destruct (String.eqb (cmd.format flags) "").
Qed.

Lemma main_runs_only_after_checks_witness :
  let flags :=
    cmd.mkFlags "http://localhost:8000/v1" "" "key" "model" "Hello" 0 "1,2" 512 "" in
  let world :=
    cmd.mkWorld (clientOf (fun i => success (dec (i + 1) 10) 512 16)) (inl "model") (inl 2)
      (inl (of_int 50)) (fun n => mkSchedule (seqZ 0 n) (seqZ 0 n) (seqZ 0 n) (seqZ 0 n))
      (fun _ => 3000000000) in
  cmd.baseURL flags ≠ "" ∧ ∃ latency, cmd.measuredLatency world = inl latency.
Proof.
  intros flags world.
  destruct (main_runs_only_after_checks invalid_amd64 (fun _ => Some [1; 2]) flags world)
    as (Hurl & _ & _ & Hlat).
  - vm_compute. discriminate.
  - split; assumption.
Defined.

(** ** The name of the results file *)

Section FileNameFacts.

Lemma list_ascii_of_string_app a b :
  String.list_ascii_of_string (a +:+ b) = String.list_ascii_of_string a ++ String.list_ascii_of_string b.
Proof. induction a as [|c a IH]; [done|]. simpl. f_equal. exact IH. Qed.

Lemma ReplaceAllByte_removes s old new :
  old ≠ new -> old ∉ String.list_ascii_of_string (ReplaceAllByte s old new).
Proof.
  intros Hne. induction s as [|c s IH]; cbn.
  - by intros ?%elem_of_nil.
  - intros [Heq|Hin]%elem_of_cons; [|done].
    destruct (Ascii.eqb_spec c old); congruence.
Qed.

Lemma ReplaceAllByte_keeps_out s old new c :
  c ≠ new -> c ∉ String.list_ascii_of_string s ->
  c ∉ String.list_ascii_of_string (ReplaceAllByte s old new).
Proof.
  intros Hne. induction s as [|d s IH]; cbn; [done|].
  intros Hout [Heq|Hin]%elem_of_cons.
  - destruct (Ascii.eqb_spec d old); [done|].
    apply Hout. subst. apply list_elem_of_here.
  - apply IH; [|done]. intros ?. apply Hout. by apply list_elem_of_further.
Qed.

Lemma ReplaceAllByte_absent s old new :
  old ∉ String.list_ascii_of_string s -> ReplaceAllByte s old new = s.
Proof.
  induction s as [|c s IH]; cbn; [done|]. intros Hout.
  destruct (Ascii.eqb_spec c old) as [->|_].
  - exfalso. apply Hout, list_elem_of_here.
  - rewrite IH; [done|]. intros ?. by apply Hout, list_elem_of_further.
Qed.

Lemma trimLeftAscii_slice s : ∃ a, s = a +:+ trimLeftAscii s.
Proof.
  induction s as [|c s [a Ha]]; [by exists ""|]. simpl.
  destruct (isAsciiSpace c).
  - exists (String c a).
    change (String c s = String c (a +:+ trimLeftAscii s)). by rewrite <- Ha.
  - by exists "".
Qed.

Lemma trimRightAscii_slice s : ∃ b, s = trimRightAscii s +:+ b.
Proof.
  induction s as [|c s [b Hb]]; [by exists ""|]. simpl.
  destruct (trimRightAscii s) as [|d t].
  - destruct (isAsciiSpace c).
    + by exists (String c s).
    + exists b. change (s = b) in Hb. by subst.
  - exists b. change (String c s = String c (String d t +:+ b)). by rewrite <- Hb.
Qed.

Lemma trimSpaceAscii_slice s : ∃ a b, s = a +:+ trimSpaceAscii s +:+ b.
Proof.
  destruct (trimLeftAscii_slice s) as [a Ha].
  destruct (trimRightAscii_slice (trimLeftAscii s)) as [b Hb].
  exists a, b. unfold trimSpaceAscii. by rewrite <- Hb.
Qed.

End FileNameFacts.

(** Whatever the model is called, the file [SaveResultsToMD] creates is
    [API_Throughput_<name>.md] with a name that is not empty, and no byte of
    it is a slash or a backslash: the file cannot land in another directory.
    A model name that has neither separator and that trimming leaves alone is
    used as it is. All that is asked of [strings.TrimSpace] is that it
    returns a slice of its argument. *)
Theorem resultsFileName_safe (TrimSpace : string -> string) (modelName : string) :
  (forall s, ∃ a b, s = a +:+ TrimSpace s +:+ b) ->
  (∃ safe, resultsFileName TrimSpace modelName = "API_Throughput_" +:+ safe +:+ ".md" ∧
           safe ≠ "") ∧
  ("/"%char ∉ String.list_ascii_of_string (resultsFileName TrimSpace modelName)) ∧
  ("\"%char ∉ String.list_ascii_of_string (resultsFileName TrimSpace modelName)) ∧
  ("/"%char ∉ String.list_ascii_of_string modelName ->
   "\"%char ∉ String.list_ascii_of_string modelName ->
   TrimSpace modelName = modelName -> modelName ≠ "" ->
   resultsFileName TrimSpace modelName = "API_Throughput_" +:+ modelName +:+ ".md").
Proof.
  intros Hslice. unfold resultsFileName.
  set (replaced := ReplaceAllByte (ReplaceAllByte modelName "/" "_") "\" "_").
  assert ("/"%char ∉ String.list_ascii_of_string replaced) as Hslash.
  { apply ReplaceAllByte_keeps_out; [done|]. by apply ReplaceAllByte_removes. }
  assert ("\"%char ∉ String.list_ascii_of_string replaced) as Hback.
  { by apply ReplaceAllByte_removes. }
  assert (forall c, c ∉ String.list_ascii_of_string replaced ->
            c ∉ String.list_ascii_of_string (TrimSpace replaced)) as Htrim.
  { intros c Hout Hin. apply Hout. destruct (Hslice replaced) as (a & b & Heq).
    rewrite Heq, !list_ascii_of_string_app, !elem_of_app. auto. }
  set (safe := if String.eqb (TrimSpace replaced) "" then "model" else TrimSpace replaced).
  assert (forall c, c ∉ String.list_ascii_of_string replaced ->
            c ∉ String.list_ascii_of_string "model" -> c ∉ String.list_ascii_of_string safe) as Hsafe.
  { intros c Hout Hmodel. unfold safe.
    destruct (String.eqb (TrimSpace replaced) ""); [done|]. by apply Htrim. }
  assert (forall c, c ∉ String.list_ascii_of_string safe ->
            c ∉ String.list_ascii_of_string "API_Throughput_" ->
            c ∉ String.list_ascii_of_string ".md" ->
            c ∉ String.list_ascii_of_string ("API_Throughput_" +:+ safe +:+ ".md")) as Hname.
  { intros c H1 H2 H3. rewrite !list_ascii_of_string_app, !elem_of_app. tauto. }
  split; [|split; [|split]].
  - exists safe. split; [done|]. unfold safe.
    destruct (String.eqb_spec (TrimSpace replaced) ""); done.
  - apply Hname; [apply Hsafe; [done|] | |]; cbn; rewrite ?elem_of_cons, elem_of_nil;
      intros H; decompose [or] H; discriminate || done.
  - apply Hname; [apply Hsafe; [done|] | |]; cbn; rewrite ?elem_of_cons, elem_of_nil;
      intros H; decompose [or] H; discriminate || done.
  - intros H1 H2 H3 H4. unfold safe, replaced.
    rewrite (ReplaceAllByte_absent modelName) by done.
    rewrite (ReplaceAllByte_absent modelName) by done.
    rewrite H3. by destruct (String.eqb_spec modelName "").
Qed.

Lemma resultsFileName_safe_witness :
  resultsFileName trimSpaceAscii " org/llm\7b " = "API_Throughput_org_llm_7b.md" ∧
  ("/"%char ∉ String.list_ascii_of_string (resultsFileName trimSpaceAscii " org/llm\7b ")).
Proof.
  destruct (resultsFileName_safe trimSpaceAscii " org/llm\7b ") as (_ & Hslash & _).
  - apply trimSpaceAscii_slice.
  - split; [reflexivity | exact Hslash].
Defined.
